(** * Swerve module: steering and drive control of one wheel module

    A shallow embedding of [src/swerve/swerve_module.py] (class
    [SwerveModule]) and the properties of its angle resolution, drive
    reversal and calibration persistence.

    Numbers.  Python floats are idealised as the real numbers of the
    Standard Library ([R], [PI] for [math.pi]); the integers of the source
    (the sensor position returned by the motor controller, the result of
    [math.trunc] and [int], [steer_range]) are [Z] and enter the arithmetic
    through [IZR].  Rounding of floating-point operations is not modelled.

    Collaborators.  The motor controllers ([TalonSRX]), the preference store
    ([wpilib.Preferences]) and the dashboard ([wpilib.SmartDashboard]) are
    external libraries; they are modelled by the part of their state that
    this class reads and writes. *)

From Stdlib Require Import Reals Lra ZArith String Ascii.
From stdpp Require Import gmap strings.

Local Open Scope R_scope.

(** ** Python arithmetic used by the source *)

(** [math.trunc] and [int] on a float: rounding toward zero. *)
Definition trunc (x : R) : Z :=
  if Rle_dec 0 x then Zfloor x else Zceil x.

(** The tolerance [0.0005] of both comparisons in [set_steer_angle]. *)
Definition tol : R := 5 / 10000.

(** ** External collaborators *)

(** An entry of the preference store: a number, a boolean, or a value of
    a kind this class never reads or writes (a string). *)
Inductive pref_value : Type :=
| PFloat (x : R)
| PBool (b : bool)
| PString (s : string).

(** [wpilib.Preferences]: a key-value store of typed entries.  A read of a
    missing key, or of a key holding a value of another kind, yields the
    caller's default.  A put on a key that holds a value of another kind is
    refused: the entry stays as it is. *)
Module Preferences.

Definition getFloat (p : gmap string pref_value) (key : string) (backup : R) : R :=
  match p !! key with
  | Some (PFloat x) => x
  | _ => backup
  end.

Definition getBoolean (p : gmap string pref_value) (key : string) (backup : bool) : bool :=
  match p !! key with
  | Some (PBool b) => b
  | _ => backup
  end.

(** Whether the store takes a number under [key]: the key is free or holds
    a number already. *)
Definition accepts_float (p : gmap string pref_value) (key : string) : bool :=
  match p !! key with
  | None | Some (PFloat _) => true
  | Some _ => false
  end.

Definition accepts_boolean (p : gmap string pref_value) (key : string) : bool :=
  match p !! key with
  | None | Some (PBool _) => true
  | Some _ => false
  end.

Definition putFloat (p : gmap string pref_value) (key : string) (value : R)
  : gmap string pref_value :=
  if accepts_float p key then <[key := PFloat value]> p else p.

Definition putBoolean (p : gmap string pref_value) (key : string) (value : bool)
  : gmap string pref_value :=
  if accepts_boolean p key then <[key := PBool value]> p else p.

End Preferences.

Inductive ControlMode : Type :=
| Position
| PercentOutput.

Inductive FeedbackDevice : Type :=
| Analog.

(** The state of one [TalonSRX] as far as the class uses it: what it reports
    (readings are inputs from the hardware) and what was last written. *)
Record TalonSRX : Type := mkTalon {
  selected_sensor_position : Z;   (* getSelectedSensorPosition() *)
  analog_in_raw : Z;              (* getAnalogInRaw() *)
  closed_loop_error : Z;          (* getClosedLoopError() *)
  feedback_sensor : option FeedbackDevice;
  profile_slot : option (Z * Z);
  last_set : option (ControlMode * R)
}.

Module Talon.

Definition configSelectedFeedbackSensor (t : TalonSRX) (d : FeedbackDevice) : TalonSRX :=
  mkTalon (selected_sensor_position t) (analog_in_raw t) (closed_loop_error t)
          (Some d) (profile_slot t) (last_set t).

Definition selectProfileSlot (t : TalonSRX) (slot pid : Z) : TalonSRX :=
  mkTalon (selected_sensor_position t) (analog_in_raw t) (closed_loop_error t)
          (feedback_sensor t) (Some (slot, pid)) (last_set t).

Definition set (t : TalonSRX) (mode : ControlMode) (value : R) : TalonSRX :=
  mkTalon (selected_sensor_position t) (analog_in_raw t) (closed_loop_error t)
          (feedback_sensor t) (profile_slot t) (Some (mode, value)).

(** [get()]: the [TalonSRX] class has no method of that name, so the call
    raises [AttributeError] and yields no value. *)
Definition get (t : TalonSRX) : option R := None.

End Talon.

(** ** The module object *)

(** The attributes of a [SwerveModule] instance. *)
Record SwerveModule : Type := mkModule {
  steer_talon : TalonSRX;
  drive_talon : TalonSRX;
  name : string;
  steer_target : R;
  steer_target_native : R;
  drive_temp_flipped : bool;
  steer_offset : R;
  steer_min : R;
  steer_max : R;
  steer_range : Z;
  drive_reversed : bool;
  steer_reversed : bool
}.

(** The module-level flag of the source, [_apply_range_hack = False].  The
    operations below take the flag as their first argument, so that both
    branches of the source are embedded. *)
Definition _apply_range_hack : bool := false.

(** [load_config_values] (lines 56-90). *)
Definition load_config_values (hack : bool) (preferences : gmap string pref_value)
    (self : SwerveModule) : SwerveModule :=
  let steer_talon' := Talon.selectProfileSlot (steer_talon self) 0 0 in
  let off := Preferences.getFloat preferences (name self +:+ "-offset") 0 in
  let '(off', smin, smax, srange) :=
    if hack then
      let smin := Preferences.getFloat preferences (name self +:+ "-min") 0 in
      let smax := Preferences.getFloat preferences (name self +:+ "-max") 1024 in
      let actual_steer_range := trunc (smax - smin) in
      let smin := smin + IZR (trunc (IZR actual_steer_range * (1 / 100))) in
      let smax := smax - IZR (trunc (IZR actual_steer_range * (1 / 100))) in
      (off - smin, smin, smax, trunc (smax - smin))
    else
      (off, 0, 1024, 1024%Z) in
  let drev := Preferences.getBoolean preferences (name self +:+ "-reversed") false in
  let srev := Preferences.getBoolean preferences (name self +:+ "-steer-reversed") false in
  mkModule steer_talon' (drive_talon self) (name self)
           (steer_target self) (steer_target_native self) (drive_temp_flipped self)
           off' smin smax srange drev srev.

(** [__init__] (lines 14-54).  [steer_hw] and [drive_hw] stand for the
    controllers bound to the two CAN ids.  The calibration attributes do not
    exist before [load_config_values] assigns every one of them; the record
    holds zeros there. *)
Definition init (hack : bool) (preferences : gmap string pref_value)
    (name : string) (steer_hw drive_hw : TalonSRX) : SwerveModule :=
  let st := Talon.configSelectedFeedbackSensor steer_hw Analog in
  let st := Talon.selectProfileSlot st 0 0 in
  load_config_values hack preferences
    (mkModule st drive_hw name 0 0 false 0 0 0 0%Z false false).

(** [save_config_values] (lines 92-104): the store after the call. *)
Definition save_config_values (hack : bool) (preferences : gmap string pref_value)
    (self : SwerveModule) : gmap string pref_value :=
  let p := Preferences.putFloat preferences (name self +:+ "-offset") (steer_offset self) in
  let p := Preferences.putBoolean p (name self +:+ "-reversed") (drive_reversed self) in
  if hack then
    let p := Preferences.putFloat p (name self +:+ "-min") (steer_min self) in
    Preferences.putFloat p (name self +:+ "-max") (steer_max self)
  else p.

(** Python's [/] raises [ZeroDivisionError] on a zero divisor. *)
Definition py_div (a : R) (b : Z) : option R :=
  if Z.eq_dec b 0%Z then None else Some (a / IZR b).

(** [get_steer_angle] (lines 106-117). *)
Definition get_steer_angle (self : SwerveModule) : option R :=
  let native_units := IZR (selected_sensor_position (steer_talon self)) in
  let native_units := native_units - steer_offset self in
  rotation_pos ← py_div native_units (steer_range self);
  Some (rotation_pos * 2 * PI).

(** Angle unwrapping (lines 140-144). *)
Definition unwrap (current_angle adjusted_target : R) : R :=
  if Rgt_dec (Rabs (adjusted_target - current_angle) - PI) tol then
    if Rgt_dec adjusted_target current_angle
    then adjusted_target - 2 * PI
    else adjusted_target + 2 * PI
  else adjusted_target.

(** Shortest-path servoing (lines 147-154): the target and
    [should_reverse_drive]. *)
Definition shortest_path (current_angle adjusted_target : R) : R * bool :=
  if Rgt_dec (Rabs (adjusted_target - current_angle) - PI / 2) tol then
    (if Rgt_dec adjusted_target current_angle
     then adjusted_target - PI
     else adjusted_target + PI, true)
  else (adjusted_target, false).

(** The first half of [set_steer_angle] (lines 131-144): the current angle
    and the target after unwrapping, before the shortest-path decision. *)
Definition unwrapped_target (self : SwerveModule) (angle_radians : R)
    : option (R * R) :=
  q ← py_div (IZR (selected_sensor_position (steer_talon self)) - steer_offset self)
             (steer_range self);
  let n_rotations := trunc q in
  current_angle ← get_steer_angle self;
  let adjusted_target := angle_radians + IZR n_rotations * 2 * PI in
  Some (current_angle, unwrap current_angle adjusted_target).

(** [set_steer_angle] (lines 119-162). *)
Definition set_steer_angle (self : SwerveModule) (angle_radians : R)
    : option SwerveModule :=
  '(current_angle, adjusted_target) ← unwrapped_target self angle_radians;
  let '(adjusted_target, should_reverse_drive) :=
    shortest_path current_angle adjusted_target in
  let native_units := adjusted_target * 512 / PI + steer_offset self in
  Some (mkModule (Talon.set (steer_talon self) Position native_units)
                 (drive_talon self) (name self)
                 adjusted_target (steer_target_native self) should_reverse_drive
                 (steer_offset self) (steer_min self) (steer_max self)
                 (steer_range self) (drive_reversed self) (steer_reversed self)).

(** [set_drive_speed] (lines 164-180): the value handed to the drive
    controller, and the module after the call. *)
Definition drive_output (self : SwerveModule) (percent_speed : R) : R :=
  let percent_speed := if drive_reversed self then percent_speed * -1 else percent_speed in
  let percent_speed := if drive_temp_flipped self then percent_speed * -1 else percent_speed in
  percent_speed.

Definition set_drive_speed (self : SwerveModule) (percent_speed : R) : SwerveModule :=
  mkModule (steer_talon self)
           (Talon.set (drive_talon self) PercentOutput (drive_output self percent_speed))
           (name self)
           (steer_target self) (steer_target_native self) (drive_temp_flipped self)
           (steer_offset self) (steer_min self) (steer_max self)
           (steer_range self) (drive_reversed self) (steer_reversed self).

(** [apply_control_values] (lines 182-194). *)
Definition apply_control_values (self : SwerveModule) (angle_radians percent_speed : R)
    : option SwerveModule :=
  self' ← set_steer_angle self angle_radians;
  Some (set_drive_speed self' percent_speed).

(** [update_smart_dashboard] (lines 196-219): the dashboard table after the
    four [putNumber] calls.  The argument of the first call reads
    [steer_talon.get()] (line 208) before anything is published; [None]
    when that raises. *)
Definition update_smart_dashboard (dashboard : gmap string R) (self : SwerveModule)
    : option (gmap string R) :=
  position ← Talon.get (steer_talon self);
  let d := <[name self +:+ " Position" :=
               (position - steer_offset self) * 180 / 512]> dashboard in
  let d := <[name self +:+ " ADC" := IZR (analog_in_raw (steer_talon self))]> d in
  let d := <[name self +:+ " Target" := steer_target self * 180 / PI]> d in
  Some (<[name self +:+ " Steer Error" :=
            IZR (closed_loop_error (steer_talon self))]> d).

(** ** The object together with the process-wide singletons *)

Record World : Type := mkWorld {
  module : SwerveModule;
  prefs : gmap string pref_value;     (* wpilib.Preferences.getInstance() *)
  dashboard : gmap string R           (* wpilib.SmartDashboard *)
}.

(** A call of one public method on the module. *)
Inductive call : Type :=
| LoadConfigValues
| SaveConfigValues
| SetSteerAngle (angle_radians : R)
| SetDriveSpeed (percent_speed : R)
| ApplyControlValues (angle_radians percent_speed : R)
| UpdateSmartDashboard.

(** How a call ends: it returns, or an exception leaves it; either way
    with the world as it is at that moment. *)
Inductive outcome : Type :=
| Returned (w : World)
| Raised (w : World).

Definition world_of (o : outcome) : World :=
  match o with Returned w | Raised w => w end.

(** The outcome of a call.  Every raise of this class happens before the
    method has assigned or written anything (the divisions of lines 115 and
    131-133, the call of line 208), so the world at a raise is the world at
    the call. *)
Definition run (hack : bool) (c : call) (w : World) : outcome :=
  match c with
  | LoadConfigValues =>
      Returned (mkWorld (load_config_values hack (prefs w) (module w))
                        (prefs w) (dashboard w))
  | SaveConfigValues =>
      Returned (mkWorld (module w) (save_config_values hack (prefs w) (module w))
                        (dashboard w))
  | SetSteerAngle a =>
      match set_steer_angle (module w) a with
      | Some self' => Returned (mkWorld self' (prefs w) (dashboard w))
      | None => Raised w
      end
  | SetDriveSpeed p =>
      Returned (mkWorld (set_drive_speed (module w) p) (prefs w) (dashboard w))
  | ApplyControlValues a p =>
      match apply_control_values (module w) a p with
      | Some self' => Returned (mkWorld self' (prefs w) (dashboard w))
      | None => Raised w
      end
  | UpdateSmartDashboard =>
      match update_smart_dashboard (dashboard w) (module w) with
      | Some d => Returned (mkWorld (module w) (prefs w) d)
      | None => Raised w
      end
  end.

(** ** Concrete configurations *)

(** A controller that reports sensor position [pos] and was never written. *)
Definition hw_at (pos : Z) : TalonSRX := mkTalon pos 0 0 None None None.

(** A module constructed against an empty preference store (offset 0,
    range 1024) whose steering sensor reads [pos]. *)
Definition nominal (pos : Z) : SwerveModule :=
  init _apply_range_hack ∅ "fl" (hw_at pos) (hw_at 0).

(** A module named like [nominal] with a calibrated offset of 37 counts
    and a reversed drive motor. *)
Definition calibrated : SwerveModule :=
  mkModule (hw_at 0) (hw_at 0) "fl" 0 0 false 37 0 1024 1024%Z true false.

(** The sensor position in rotations: the quotient that lines 115 and
    131-133 both compute, when the divisor is not zero. *)
Definition rotations (self : SwerveModule) : R :=
  (IZR (selected_sensor_position (steer_talon self)) - steer_offset self)
  / IZR (steer_range self).

(** The module with [drive_temp_flipped] holding [b] and every other
    attribute as in [self]: the same call made after a different history. *)
Definition with_drive_temp_flipped (self : SwerveModule) (b : bool) : SwerveModule :=
  mkModule (steer_talon self) (drive_talon self) (name self)
           (steer_target self) (steer_target_native self) b
           (steer_offset self) (steer_min self) (steer_max self)
           (steer_range self) (drive_reversed self) (steer_reversed self).

(** A store in which both keys of the module named [fl] hold a value of
    another kind than the class saves under them. *)
Definition mistyped_store : gmap string pref_value :=
  <["fl-offset"%string := PBool true]> (<["fl-reversed"%string := PFloat 1]> ∅).

(** ** The environment of the object *)

(** The controller [t] after the hardware produced new readings; what the
    class configured and last wrote stays. *)
Definition sense (t : TalonSRX) (pos raw err : Z) : TalonSRX :=
  mkTalon pos raw err (feedback_sensor t) (profile_slot t) (last_set t).

(** The module whose steering sensor now reads [pos]. *)
Definition with_sensor_position (self : SwerveModule) (pos : Z) : SwerveModule :=
  mkModule (sense (steer_talon self) pos (analog_in_raw (steer_talon self))
                  (closed_loop_error (steer_talon self)))
           (drive_talon self) (name self)
           (steer_target self) (steer_target_native self) (drive_temp_flipped self)
           (steer_offset self) (steer_min self) (steer_max self)
           (steer_range self) (drive_reversed self) (steer_reversed self).

(** What happens to the object over time: a call of a public method, new
    readings of the steering controller, or another writer replacing the
    content of the preference store. *)
Inductive event : Type :=
| Call (c : call)
| Readings (pos raw err : Z)
| StoreEdited (p : gmap string pref_value).

Definition step (hack : bool) (e : event) (w : World) : outcome :=
  match e with
  | Call c => run hack c w
  | Readings pos raw err =>
      let self := module w in
      Returned (mkWorld
                  (mkModule (sense (steer_talon self) pos raw err)
                            (drive_talon self) (name self)
                            (steer_target self) (steer_target_native self)
                            (drive_temp_flipped self)
                            (steer_offset self) (steer_min self) (steer_max self)
                            (steer_range self) (drive_reversed self)
                            (steer_reversed self))
                  (prefs w) (dashboard w))
  | StoreEdited p => Returned (mkWorld (module w) p (dashboard w))
  end.

(** A sequence of events; an exception that leaves a call ends the run. *)
Fixpoint run_all (hack : bool) (es : list event) (w : World) : outcome :=
  match es with
  | [] => Returned w
  | e :: es' =>
      match step hack e w with
      | Returned w' => run_all hack es' w'
      | Raised w' => Raised w'
      end
  end.

(** A module name without the character [-], which starts every suffix of
    a preference key. *)
Fixpoint hyphen_free (s : string) : bool :=
  match s with
  | EmptyString => true
  | String c r => negb (Ascii.eqb c "-"%char) && hyphen_free r
  end.

(** The sign that [set_drive_speed] applies for a flag. *)
Definition sign_of (flag : bool) : R := if flag then -1 else 1.

(** ** Arithmetic facts *)

Lemma PI_gt_3 : 3 < PI.
Proof. pose proof PI2_3_2. lra. Qed.

Lemma trunc_nonneg_eq (x : R) (z : Z) :
  0 <= x -> IZR z <= x < IZR z + 1 -> trunc x = z.
Proof.
  intros Hx Hz. unfold trunc.
  destruct (Rle_dec 0 x) as [_|Hn]; [|contradiction].
  by apply Zfloor_eq.
Qed.

Lemma trunc_neg_eq (x : R) (z : Z) :
  x < 0 -> IZR z - 1 < x <= IZR z -> trunc x = z.
Proof.
  intros Hx Hz. unfold trunc.
  destruct (Rle_dec 0 x) as [Hn|_]; [lra|].
  by apply Zceil_eq.
Qed.

Example trunc_toward_zero :
  trunc (7 / 8) = 0%Z /\ trunc (- 7 / 8) = 0%Z /\
  trunc (15 / 8) = 1%Z /\ trunc (- 15 / 8) = (-1)%Z.
Proof.
  split_and!;
    first [ apply trunc_nonneg_eq; lra | apply trunc_neg_eq; lra ].
Qed.

(** Truncation drops less than one unit, toward zero. *)
Lemma trunc_bound (x : R) :
  (0 <= x /\ 0 <= x - IZR (trunc x) < 1) \/ (x < 0 /\ -1 < x - IZR (trunc x) <= 0).
Proof.
  unfold trunc. destruct (Rle_dec 0 x) as [Hx|Hx].
  - left. pose proof (Zfloor_bound x). lra.
  - right. pose proof (Zceil_bound x). lra.
Qed.

Lemma Rabs_gt_cases (d c : R) : Rabs d > c <-> d > c \/ - d > c.
Proof. unfold Rabs. destruct (Rcase_abs d); lra. Qed.

(** ** The steering computation, step by step *)

Section Steering.

Variable self : SwerveModule.
Variable angle_radians : R.
Hypothesis range_nonzero : steer_range self <> 0%Z.

Lemma py_div_range (a : R) :
  py_div a (steer_range self) = Some (a / IZR (steer_range self)).
Proof using range_nonzero.
  unfold py_div. by destruct (Z.eq_dec (steer_range self) 0%Z).
Qed.

Lemma get_steer_angle_Some : get_steer_angle self = Some (rotations self * 2 * PI).
Proof using range_nonzero.
  unfold get_steer_angle. by rewrite py_div_range.
Qed.

Lemma unwrapped_target_Some :
  unwrapped_target self angle_radians =
    Some (rotations self * 2 * PI,
          unwrap (rotations self * 2 * PI)
                 (angle_radians + IZR (trunc (rotations self)) * 2 * PI)).
Proof using range_nonzero.
  unfold unwrapped_target.
  by rewrite py_div_range, get_steer_angle_Some.
Qed.

Lemma set_steer_angle_Some :
  let cur := rotations self * 2 * PI in
  let pre := unwrap cur (angle_radians + IZR (trunc (rotations self)) * 2 * PI) in
  let sp := shortest_path cur pre in
  set_steer_angle self angle_radians =
    Some (mkModule
            (Talon.set (steer_talon self) Position
                       (sp.1 * 512 / PI + steer_offset self))
            (drive_talon self) (name self)
            sp.1 (steer_target_native self) sp.2
            (steer_offset self) (steer_min self) (steer_max self)
            (steer_range self) (drive_reversed self) (steer_reversed self)).
Proof using range_nonzero.
  intros cur pre sp. unfold set_steer_angle.
  rewrite unwrapped_target_Some. simpl.
  fold cur. fold pre. fold sp. by destruct sp.
Qed.

End Steering.

Lemma nominal_fields (pos : Z) :
  selected_sensor_position (steer_talon (nominal pos)) = pos /\
  steer_offset (nominal pos) = 0 /\
  steer_range (nominal pos) = 1024%Z.
Proof. done. Qed.

(** ** Shortest-path resolution *)

(** Case analysis on the two comparisons of a step and on the absolute
    values in them, closed by linear arithmetic with [3 < PI <= 4]. *)
Ltac angle_cases :=
  pose proof PI_gt_3; pose proof PI_4;
  unfold unwrap, shortest_path, tol in *;
  repeat match goal with
         | |- context [Rgt_dec ?a ?b] => destruct (Rgt_dec a b)
         | H : context [Rgt_dec ?a ?b] |- _ => destruct (Rgt_dec a b)
         end;
  simpl in *;
  unfold Rabs in *;
  repeat match goal with
         | |- context [Rcase_abs ?a] => destruct (Rcase_abs a)
         | H : context [Rcase_abs ?a] |- _ => destruct (Rcase_abs a)
         end;
  try lra.

(** After unwrapping and the flip decision the target is within a quarter
    turn of the current angle, provided the raw target was within seven
    quarter turns: one unwrapping step removes one full turn only. *)
Lemma shortest_path_bound (cur adj : R) :
  Rabs (adj - cur) <= 7 * PI / 2 + tol ->
  Rabs ((shortest_path cur (unwrap cur adj)).1 - cur) <= PI / 2 + tol.
Proof. intros H. angle_cases. Qed.

(** The raw target is less than one full turn plus the commanded angle away
    from the current angle. *)
Lemma raw_target_distance (x a : R) :
  Rabs (a + IZR (trunc x) * 2 * PI - x * 2 * PI) < Rabs a + 2 * PI.
Proof.
  pose proof PI_gt_3.
  destruct (trunc_bound x) as [[_ Hb]|[_ Hb]];
    unfold Rabs; repeat destruct Rcase_abs; nra.
Qed.

(** X4: for a commanded angle within three quarter turns, whatever the
    sensor reads, the stored steering target ends within a quarter turn
    (plus the tolerance) of the current angle. *)
Lemma set_steer_angle_bound (self : SwerveModule) (angle_radians : R) :
  steer_range self <> 0%Z ->
  - (3 * PI / 2) <= angle_radians <= 3 * PI / 2 ->
  exists self' cur,
    get_steer_angle self = Some cur /\
    set_steer_angle self angle_radians = Some self' /\
    Rabs (steer_target self' - cur) <= PI / 2 + tol.
Proof.
  intros Hr Ha.
  eexists _, _. split; [by apply get_steer_angle_Some|].
  split; [by apply set_steer_angle_Some|]. simpl.
  apply shortest_path_bound.
  pose proof (raw_target_distance (rotations self) angle_radians) as Hd.
  assert (Rabs angle_radians <= 3 * PI / 2) by (unfold Rabs; destruct Rcase_abs; lra).
  unfold tol. lra.
Qed.

(** C1: with the sensor at 896 of 1024 counts (seven eighths of a turn) and
    the commanded angle [-2π], which is inside [[-2π, 2π]], the stored
    steering target is [π] while the current angle is [7π/4]: they differ by
    three eighths of a turn, more than [π/2 + 0.0005]. *)
Theorem set_steer_angle_exceeds_quarter_turn :
  - (2 * PI) <= - (2 * PI) <= 2 * PI /\
  get_steer_angle (nominal 896) = Some (7 / 4 * PI) /\
  exists self',
    set_steer_angle (nominal 896) (- (2 * PI)) = Some self' /\
    steer_target self' = PI /\
    drive_temp_flipped self' = true /\
    Rabs (steer_target self' - 7 / 4 * PI) > PI / 2 + tol.
Proof.
  pose proof PI_gt_3 as Hpi.
  assert (Hr : steer_range (nominal 896) <> 0%Z) by done.
  assert (Hq : rotations (nominal 896) = 7 / 8).
  { destruct (nominal_fields 896) as (Hp & Ho & Hg).
    unfold rotations. rewrite Hp, Ho, Hg. lra. }
  assert (Ht : trunc (7 / 8) = 0%Z) by (apply trunc_nonneg_eq; lra).
  split; [lra|]. split.
  { rewrite (get_steer_angle_Some _ Hr), Hq. f_equal. lra. }
  eexists. split; [by apply set_steer_angle_Some|]. simpl.
  rewrite Hq, Ht.
  assert (Hu : unwrap (7 / 8 * 2 * PI) (- (2 * PI) + 0 * 2 * PI) = 0)
    by angle_cases.
  rewrite Hu.
  assert (Hs : shortest_path (7 / 8 * 2 * PI) 0 = (PI, true)).
  { unfold shortest_path.
    destruct Rgt_dec as [_|Hn].
    - destruct Rgt_dec as [Hg|_]; [lra|]. f_equal. lra.
    - exfalso. apply Hn. unfold tol, Rabs. destruct Rcase_abs; lra. }
  rewrite Hs. simpl. repeat split.
  unfold tol, Rabs. destruct Rcase_abs; lra.
Qed.

(** ** The flip decision *)

Lemma shortest_path_flag (cur pre : R) :
  (shortest_path cur pre).2 = true <-> Rabs (pre - cur) > PI / 2 + tol.
Proof.
  unfold shortest_path. destruct Rgt_dec as [Hg|Hn]; simpl.
  - split; [intros _; lra | done].
  - split; [done | intros H; exfalso; apply Hn; lra].
Qed.

Lemma shortest_path_flipped (cur pre : R) :
  (shortest_path cur pre).2 = true ->
  (pre > cur /\ (shortest_path cur pre).1 = pre - PI) \/
  (pre < cur /\ (shortest_path cur pre).1 = pre + PI).
Proof.
  intros H. pose proof (proj1 (shortest_path_flag cur pre) H) as Hd.
  pose proof PI_gt_3. revert Hd. unfold shortest_path, tol.
  destruct Rgt_dec as [Hg|Hn]; simpl.
  - intros Hd. destruct Rgt_dec as [Hc|Hc]; [left; done|].
    right. split; [|done].
    apply Rabs_gt_cases in Hd. lra.
  - intros Hd. exfalso. apply Hn. lra.
Qed.

Lemma shortest_path_kept (cur pre : R) :
  (shortest_path cur pre).2 = false -> (shortest_path cur pre).1 = pre.
Proof. unfold shortest_path. by destruct Rgt_dec. Qed.

(** C2: a completed call of [set_steer_angle] assigns [drive_temp_flipped]
    from the distance between the unwrapped, not yet flipped target [pre]
    and the current angle [cur]: it is true exactly when that distance is
    strictly greater than [π/2 + 0.0005] (so not at the boundary itself),
    whatever the flag held before the call; and when it is true the stored
    target is [pre] moved by [π] toward [cur]. *)
Theorem set_steer_angle_flip_decision (self : SwerveModule) (angle_radians : R) :
  steer_range self <> 0%Z ->
  exists cur pre self',
    unwrapped_target self angle_radians = Some (cur, pre) /\
    set_steer_angle self angle_radians = Some self' /\
    (drive_temp_flipped self' = true <-> Rabs (pre - cur) > PI / 2 + tol) /\
    (Rabs (pre - cur) = PI / 2 + tol -> drive_temp_flipped self' = false) /\
    (drive_temp_flipped self' = true ->
       (pre > cur /\ steer_target self' = pre - PI) \/
       (pre < cur /\ steer_target self' = pre + PI)) /\
    (forall previous : bool,
       exists self'',
         set_steer_angle (with_drive_temp_flipped self previous) angle_radians
           = Some self'' /\
         drive_temp_flipped self'' = drive_temp_flipped self' /\
         steer_target self'' = steer_target self').
Proof.
  intros Hr.
  eexists _, _, _.
  split; [by apply unwrapped_target_Some|].
  split; [by apply set_steer_angle_Some|]. simpl.
  split; [apply shortest_path_flag|].
  split.
  { intros He. destruct (shortest_path _ _).2 eqn:Hf; [|done].
    apply shortest_path_flag in Hf. lra. }
  split; [apply shortest_path_flipped|].
  intros previous. eexists.
  split; [by apply (set_steer_angle_Some (with_drive_temp_flipped self previous))|].
  done.
Qed.

(** C2 at the boundary: from sensor position 0 the command [π/2 + 0.0005]
    is exactly at the threshold and does not flip. *)
Lemma set_steer_angle_flip_decision_witness :
  steer_range (nominal 0) <> 0%Z /\
  exists self',
    set_steer_angle (nominal 0) (PI / 2 + tol) = Some self' /\
    drive_temp_flipped self' = false.
Proof.
  assert (Hr : steer_range (nominal 0) <> 0%Z) by done.
  split; [exact Hr|].
  destruct (set_steer_angle_flip_decision (nominal 0) (PI / 2 + tol) Hr)
    as (cur & pre & self' & Hu & Hs & _ & Hb & _).
  exists self'. split; [exact Hs|]. apply Hb.
  rewrite (unwrapped_target_Some _ _ Hr) in Hu.
  assert (Hq : rotations (nominal 0) = 0).
  { destruct (nominal_fields 0) as (Hp & Ho & Hg).
    unfold rotations. rewrite Hp, Ho, Hg. lra. }
  assert (Ht : trunc 0 = 0%Z) by (apply trunc_nonneg_eq; lra).
  rewrite Hq, Ht in Hu. injection Hu as <- <-.
  angle_cases.
Defined.

(** A half turn commanded from the zero position: the module stays where
    it is and the drive is reversed. *)
Example half_turn_from_zero :
  exists self',
    set_steer_angle (nominal 0) PI = Some self' /\
    steer_target self' = 0 /\ drive_temp_flipped self' = true.
Proof.
  assert (Hr : steer_range (nominal 0) <> 0%Z) by done.
  eexists. split; [by apply set_steer_angle_Some|]. simpl.
  assert (Hq : rotations (nominal 0) = 0).
  { destruct (nominal_fields 0) as (Hp & Ho & Hg).
    unfold rotations. rewrite Hp, Ho, Hg. lra. }
  assert (Ht : trunc 0 = 0%Z) by (apply trunc_nonneg_eq; lra).
  rewrite Hq, Ht.
  assert (Hu : unwrap (0 * 2 * PI) (PI + 0 * 2 * PI) = PI) by angle_cases.
  rewrite Hu.
  assert (Hs : shortest_path (0 * 2 * PI) PI = (0, true)).
  { pose proof PI_gt_3. unfold shortest_path.
    destruct Rgt_dec as [_|Hn].
    - destruct Rgt_dec as [_|Hn]; [f_equal; lra|].
      exfalso. apply Hn. lra.
    - exfalso. apply Hn. unfold tol, Rabs. destruct Rcase_abs; lra. }
  by rewrite Hs.
Qed.

(** ** Native setpoint *)

(** A command of an eighth of a turn from the zero position is neither
    unwrapped nor flipped. *)
Lemma eighth_turn_from_zero :
  shortest_path 0 (unwrap 0 (PI / 4 + 0 * 2 * PI)) = (PI / 4, false).
Proof.
  assert (Hu : unwrap 0 (PI / 4 + 0 * 2 * PI) = PI / 4) by angle_cases.
  rewrite Hu. unfold shortest_path.
  destruct Rgt_dec as [Hg|_]; [|done].
  exfalso. revert Hg. angle_cases.
Qed.

(** C3: the position setpoint handed to the steering controller is
    [steer_target * 512 / π + steer_offset] for every non-zero
    [steer_range]; and with raw sensor 0 and offset 0 the command [π/4]
    issues setpoint 128 whatever the range is, 1024 included. *)
Theorem set_steer_angle_native_setpoint :
  (forall (self : SwerveModule) (angle_radians : R),
     steer_range self <> 0%Z ->
     exists self',
       set_steer_angle self angle_radians = Some self' /\
       steer_offset self' = steer_offset self /\
       last_set (steer_talon self') =
         Some (Position, steer_target self' * 512 / PI + steer_offset self)) /\
  (forall self : SwerveModule,
     steer_range self <> 0%Z ->
     selected_sensor_position (steer_talon self) = 0%Z ->
     steer_offset self = 0 ->
     exists self' native_units,
       set_steer_angle self (PI / 4) = Some self' /\
       steer_target self' = PI / 4 /\
       drive_temp_flipped self' = false /\
       last_set (steer_talon self') = Some (Position, native_units) /\
       native_units = 128) /\
  steer_range (nominal 0) = 1024%Z.
Proof.
  split; [|split; [|done]].
  - intros self a Hr. eexists.
    split; [by apply set_steer_angle_Some|]. done.
  - intros self Hr Hp Ho. eexists _, _.
    split; [by apply set_steer_angle_Some|]. simpl.
    assert (Hq : rotations self = 0).
    { unfold rotations. rewrite Hp, Ho. unfold Rdiv. lra. }
    assert (Ht : trunc 0 = 0%Z) by (apply trunc_nonneg_eq; lra).
    rewrite Hq, Ht, Ho.
    replace (0 * 2 * PI) with 0 by lra.
    replace (PI / 4 + 0) with (PI / 4 + 0 * 2 * PI) by lra.
    rewrite eighth_turn_from_zero. simpl.
    repeat split. pose proof PI_neq0. field. done.
Qed.

(** C3 on the module constructed with default preferences and sensor at 0:
    range 1024, command [π/4], native setpoint 128. *)
Lemma set_steer_angle_native_setpoint_witness :
  steer_range (nominal 0) <> 0%Z /\
  exists self' native_units,
    set_steer_angle (nominal 0) (PI / 4) = Some self' /\
    last_set (steer_talon self') = Some (Position, native_units) /\
    native_units = 128.
Proof.
  assert (Hr : steer_range (nominal 0) <> 0%Z) by done.
  split; [exact Hr|].
  destruct set_steer_angle_native_setpoint as (_ & Hex & _).
  destruct (Hex (nominal 0) Hr eq_refl eq_refl)
    as (self' & u & Hs & _ & _ & Hl & Hu).
  by exists self', u.
Defined.

(** ** Drive output *)

(** C4: the drive controller receives the commanded value multiplied by
    [-1] once for [drive_reversed] and once for [drive_temp_flipped]; the
    magnitude is the commanded one, with no clamping; with both flags set,
    the command 0.5 arrives as 0.5. *)
Theorem set_drive_speed_output :
  (forall (self : SwerveModule) (percent_speed : R),
     exists sent,
       last_set (drive_talon (set_drive_speed self percent_speed))
         = Some (PercentOutput, sent) /\
       sent = percent_speed * (if drive_reversed self then -1 else 1)
                            * (if drive_temp_flipped self then -1 else 1) /\
       Rabs sent = Rabs percent_speed) /\
  (forall (st dt : TalonSRX) (n : string) (target native off smin smax : R)
          (range : Z) (steer_rev : bool),
     exists sent,
       last_set (drive_talon
                   (set_drive_speed
                      (mkModule st dt n target native true off smin smax range
                                true steer_rev) 0.5))
         = Some (PercentOutput, sent) /\
       sent = 0.5).
Proof.
  split.
  - intros self p. eexists. split; [done|].
    unfold drive_output; simpl.
    destruct (drive_reversed self), (drive_temp_flipped self);
      (split; [lra|]); unfold Rabs; repeat destruct Rcase_abs; lra.
  - intros. eexists. split; [done|].
    unfold drive_output; simpl. lra.
Qed.

(** ** Reading the steering angle *)

(** C7: [get_steer_angle] returns the offset-corrected sensor count divided
    (as a real number) by [steer_range], times [2π]; nothing limits its
    range: the nominal module at sensor 0 reads 0, and at [k] full turns of
    1024 counts it reads [k * 2π], for every integer [k]. *)
Theorem get_steer_angle_value :
  (forall self : SwerveModule,
     steer_range self <> 0%Z ->
     exists angle,
       get_steer_angle self = Some angle /\
       angle = (IZR (selected_sensor_position (steer_talon self)) - steer_offset self)
               / IZR (steer_range self) * (2 * PI)) /\
  (exists angle, get_steer_angle (nominal 0) = Some angle /\ angle = 0) /\
  (forall k : Z,
     exists angle,
       get_steer_angle (nominal (1024 * k)) = Some angle /\
       angle = IZR k * (2 * PI)) /\
  (exists angle, get_steer_angle (nominal 2048) = Some angle /\ angle > 2 * PI) /\
  (exists angle, get_steer_angle (nominal (-2048)) = Some angle /\ angle < - (2 * PI)).
Proof.
  assert (Hgen : forall self : SwerveModule,
     steer_range self <> 0%Z ->
     exists angle,
       get_steer_angle self = Some angle /\
       angle = (IZR (selected_sensor_position (steer_talon self)) - steer_offset self)
               / IZR (steer_range self) * (2 * PI)).
  { intros self Hr. eexists. split; [by apply get_steer_angle_Some|].
    unfold rotations. lra. }
  assert (Hnom : forall pos, exists angle,
     get_steer_angle (nominal pos) = Some angle /\ angle = IZR pos / 1024 * (2 * PI)).
  { intros pos. destruct (Hgen (nominal pos)) as (a & Ha & Hv); [done|].
    exists a. split; [done|].
    destruct (nominal_fields pos) as (Hp & Ho & Hg).
    rewrite Hp, Ho, Hg in Hv. lra. }
  pose proof PI_gt_3.
  split; [exact Hgen|].
  split. { destruct (Hnom 0%Z) as (a & ? & ?). exists a. split; [done|lra]. }
  split. { intros k. destruct (Hnom (1024 * k)%Z) as (a & ? & Hv). exists a.
           split; [done|]. rewrite mult_IZR in Hv. lra. }
  split.
  - destruct (Hnom 2048%Z) as (a & ? & ?). exists a. split; [done|lra].
  - destruct (Hnom (-2048)%Z) as (a & ? & ?). exists a. split; [done|lra].
Qed.

(** C7 on the nominal module at sensor 0: the angle is 0. *)
Lemma get_steer_angle_value_witness :
  steer_range (nominal 0) <> 0%Z /\
  exists angle, get_steer_angle (nominal 0) = Some angle /\ angle = 0.
Proof.
  assert (Hr : steer_range (nominal 0) <> 0%Z) by done.
  split; [exact Hr|].
  destruct (proj1 get_steer_angle_value (nominal 0) Hr) as (a & Ha & Hv).
  exists a. split; [exact Ha|].
  destruct (nominal_fields 0) as (Hp & Ho & Hg).
  rewrite Hp, Ho, Hg in Hv. lra.
Defined.

(** ** Calibration persistence *)

(** Two keys of one module are equal only if their suffixes are. *)
Lemma key_suffix_inj (n a b : string) : n +:+ a = n +:+ b -> a = b.
Proof. induction n as [|c n IH]; simpl; [done|]. intros [= H]. by apply IH. Qed.

Ltac key_neq :=
  let H := fresh in
  intros H; try symmetry in H; apply key_suffix_inj in H; discriminate H.

(** *** Reads after puts *)

Lemma lookup_putFloat_eq (p : gmap string pref_value) (k : string) (x : R) :
  Preferences.putFloat p k x !! k =
    if Preferences.accepts_float p k then Some (PFloat x) else p !! k.
Proof.
  unfold Preferences.putFloat.
  destruct (Preferences.accepts_float p k); [apply lookup_insert_eq | done].
Qed.

Lemma lookup_putFloat_ne (p : gmap string pref_value) (k k' : string) (x : R) :
  k <> k' -> Preferences.putFloat p k x !! k' = p !! k'.
Proof.
  intros Hne. unfold Preferences.putFloat.
  destruct (Preferences.accepts_float p k); [by apply lookup_insert_ne | done].
Qed.

Lemma lookup_putBoolean_eq (p : gmap string pref_value) (k : string) (b : bool) :
  Preferences.putBoolean p k b !! k =
    if Preferences.accepts_boolean p k then Some (PBool b) else p !! k.
Proof.
  unfold Preferences.putBoolean.
  destruct (Preferences.accepts_boolean p k); [apply lookup_insert_eq | done].
Qed.

Lemma lookup_putBoolean_ne (p : gmap string pref_value) (k k' : string) (b : bool) :
  k <> k' -> Preferences.putBoolean p k b !! k' = p !! k'.
Proof.
  intros Hne. unfold Preferences.putBoolean.
  destruct (Preferences.accepts_boolean p k); [by apply lookup_insert_ne | done].
Qed.

(** Whether a put is taken depends on the entry under its key only. *)
Lemma accepts_float_ext (p q : gmap string pref_value) (k : string) :
  p !! k = q !! k -> Preferences.accepts_float p k = Preferences.accepts_float q k.
Proof. intros H. unfold Preferences.accepts_float. by rewrite H. Qed.

Lemma accepts_boolean_ext (p q : gmap string pref_value) (k : string) :
  p !! k = q !! k -> Preferences.accepts_boolean p k = Preferences.accepts_boolean q k.
Proof. intros H. unfold Preferences.accepts_boolean. by rewrite H. Qed.

(** The store after [save_config_values], key by key: each put is taken or
    refused according to the entry the store held under its key. *)
Lemma lookup_save (hack : bool) (preferences : gmap string pref_value)
    (self : SwerveModule) (k : string) :
  save_config_values hack preferences self !! k =
    if decide (k = name self +:+ "-offset")
    then (if Preferences.accepts_float preferences k
          then Some (PFloat (steer_offset self)) else preferences !! k)
    else if decide (k = name self +:+ "-reversed")
    then (if Preferences.accepts_boolean preferences k
          then Some (PBool (drive_reversed self)) else preferences !! k)
    else if hack && bool_decide (k = name self +:+ "-min")
    then (if Preferences.accepts_float preferences k
          then Some (PFloat (steer_min self)) else preferences !! k)
    else if hack && bool_decide (k = name self +:+ "-max")
    then (if Preferences.accepts_float preferences k
          then Some (PFloat (steer_max self)) else preferences !! k)
    else preferences !! k.
Proof.
  set (p1 := Preferences.putFloat preferences (name self +:+ "-offset")
               (steer_offset self)).
  set (p2 := Preferences.putBoolean p1 (name self +:+ "-reversed")
               (drive_reversed self)).
  set (p3 := Preferences.putFloat p2 (name self +:+ "-min") (steer_min self)).
  assert (H1 : forall k', k' <> name self +:+ "-offset" -> p1 !! k' = preferences !! k').
  { intros k' Hne. apply lookup_putFloat_ne. done. }
  assert (H2 : forall k', k' <> name self +:+ "-offset" ->
                 k' <> name self +:+ "-reversed" -> p2 !! k' = preferences !! k').
  { intros k' Hn1 Hn2. unfold p2. rewrite lookup_putBoolean_ne by done. by apply H1. }
  assert (H3 : forall k', k' <> name self +:+ "-offset" ->
                 k' <> name self +:+ "-reversed" -> k' <> name self +:+ "-min" ->
                 p3 !! k' = preferences !! k').
  { intros k' Hn1 Hn2 Hn3. unfold p3. rewrite lookup_putFloat_ne by done. by apply H2. }
  assert (Hsave : save_config_values hack preferences self =
            if hack
            then Preferences.putFloat p3 (name self +:+ "-max") (steer_max self)
            else p2) by reflexivity.
  rewrite Hsave. clear Hsave.
  destruct (decide (k = name self +:+ "-offset")) as [->|Hko].
  { assert (E : (if hack
                 then Preferences.putFloat p3 (name self +:+ "-max") (steer_max self)
                 else p2) !! (name self +:+ "-offset")
                = p1 !! (name self +:+ "-offset")).
    { destruct hack.
      - rewrite lookup_putFloat_ne by key_neq. unfold p3.
        rewrite lookup_putFloat_ne by key_neq. unfold p2.
        by rewrite lookup_putBoolean_ne by key_neq.
      - unfold p2. by rewrite lookup_putBoolean_ne by key_neq. }
    rewrite E. apply lookup_putFloat_eq. }
  destruct (decide (k = name self +:+ "-reversed")) as [->|Hkr].
  { assert (E : (if hack
                 then Preferences.putFloat p3 (name self +:+ "-max") (steer_max self)
                 else p2) !! (name self +:+ "-reversed")
                = p2 !! (name self +:+ "-reversed")).
    { destruct hack; [|done].
      rewrite lookup_putFloat_ne by key_neq. unfold p3.
      by rewrite lookup_putFloat_ne by key_neq. }
    rewrite E. unfold p2. rewrite lookup_putBoolean_eq.
    rewrite (accepts_boolean_ext p1 preferences) by (apply H1; key_neq).
    by rewrite H1 by key_neq. }
  destruct hack; simpl; [|by apply H2].
  case_bool_decide as Hkm.
  { subst k. rewrite lookup_putFloat_ne by key_neq. unfold p3.
    rewrite lookup_putFloat_eq.
    rewrite (accepts_float_ext p2 preferences) by (apply H2; key_neq).
    by rewrite H2 by key_neq. }
  case_bool_decide as Hkx.
  { subst k. rewrite lookup_putFloat_eq.
    rewrite (accepts_float_ext p3 preferences) by (apply H3; key_neq).
    by rewrite H3 by key_neq. }
  rewrite lookup_putFloat_ne by done. by apply H3.
Qed.






(** C6: a second [load_config_values] against the same store changes
    nothing, in either mode: every calibration attribute is read anew from
    the store, never from the attribute's previous value. *)
Theorem load_config_values_idempotent (hack : bool)
    (preferences : gmap string pref_value) (self : SwerveModule) :
  load_config_values hack preferences (load_config_values hack preferences self)
    = load_config_values hack preferences self.
Proof. unfold load_config_values. by destruct hack. Qed.

(** C8: in the program as written ([_apply_range_hack] is [False]) the
    constructor and every [load_config_values] leave [steer_range] at 1024,
    whatever the store holds, so it is positive and both divisions by it
    succeed. *)
Theorem steer_range_positive (preferences : gmap string pref_value)
    (self : SwerveModule) (n : string) (steer_hw drive_hw : TalonSRX) :
  _apply_range_hack = false /\
  let loaded := load_config_values _apply_range_hack preferences self in
  let built := init _apply_range_hack preferences n steer_hw drive_hw in
  steer_range loaded = 1024%Z /\ steer_range built = 1024%Z /\
  (0 < steer_range loaded)%Z /\ (0 < steer_range built)%Z /\
  steer_min loaded = 0 /\ steer_max loaded = 1024 /\
  is_Some (get_steer_angle loaded) /\ is_Some (get_steer_angle built) /\
  (forall angle_radians,
     is_Some (set_steer_angle loaded angle_radians) /\
     is_Some (set_steer_angle built angle_radians)).
Proof.
  split; [done|]. intros loaded built.
  assert (Hl : steer_range loaded <> 0%Z) by done.
  assert (Hb : steer_range built <> 0%Z) by done.
  assert (Hl' : steer_range loaded = 1024%Z) by done.
  assert (Hb' : steer_range built = 1024%Z) by done.
  split_and!; try done; try lia.
  intros angle_radians. split.
  - rewrite (set_steer_angle_Some _ angle_radians Hl). by eexists.
  - rewrite (set_steer_angle_Some _ angle_radians Hb). by eexists.
Qed.

(** With range-hack mode switched on, equal persisted bounds give a zero
    [steer_range]: the positivity of [steer_range] rests on the flag being
    off. *)
Remark range_hack_zero_range :
  steer_range
    (load_config_values true
       (<["fl-min"%string := PFloat 5]> (<["fl-max"%string := PFloat 5]> ∅))
       (nominal 0)) = 0%Z.
Proof.
  unfold load_config_values. simpl.
  unfold Preferences.getFloat.
  rewrite lookup_insert_eq, lookup_insert_ne by done.
  rewrite lookup_insert_eq.
  assert (H0 : trunc (5 - 5) = 0%Z) by (apply trunc_nonneg_eq; lra).
  rewrite H0.
  assert (H1 : trunc (0 * (1 / 100)) = 0%Z) by (apply trunc_nonneg_eq; lra).
  rewrite H1.
  apply trunc_nonneg_eq; lra.
Qed.

(** C9 does not hold for every store: over [mistyped_store] the entry
    under [name-offset] is not the saved offset after [save_config_values];
    the put was refused. *)
Lemma save_config_values_refused :
  ~ (forall (preferences : gmap string pref_value) (self : SwerveModule),
       save_config_values false preferences self !! (name self +:+ "-offset")
       = Some (PFloat (steer_offset self))).
Proof.
  intros H. specialize (H mistyped_store calibrated).
  assert (Hread : save_config_values false mistyped_store calibrated
                    !! (name calibrated +:+ "-offset") = Some (PBool true))
    by reflexivity.
  rewrite Hread in H. discriminate H.
Qed.

(** C9: [save_config_values] puts the offset under [name-offset] and the
    drive polarity under [name-reversed], in range-hack mode also the bounds
    under [name-min] and [name-max].  A put on a key that is free or holds a
    value of the same kind stores the saved value; a put on a key holding a
    value of another kind leaves that entry.  Every other key holds what it
    held before, and [name-steer-reversed] is such a key in both modes. *)
Theorem save_config_values_writes (hack : bool)
    (preferences : gmap string pref_value) (self : SwerveModule) :
  (forall k : string,
     save_config_values hack preferences self !! k =
       if decide (k = name self +:+ "-offset")
       then (if Preferences.accepts_float preferences k
             then Some (PFloat (steer_offset self)) else preferences !! k)
       else if decide (k = name self +:+ "-reversed")
       then (if Preferences.accepts_boolean preferences k
             then Some (PBool (drive_reversed self)) else preferences !! k)
       else if hack && bool_decide (k = name self +:+ "-min")
       then (if Preferences.accepts_float preferences k
             then Some (PFloat (steer_min self)) else preferences !! k)
       else if hack && bool_decide (k = name self +:+ "-max")
       then (if Preferences.accepts_float preferences k
             then Some (PFloat (steer_max self)) else preferences !! k)
       else preferences !! k) /\
  save_config_values hack preferences self !! (name self +:+ "-steer-reversed")
    = preferences !! (name self +:+ "-steer-reversed").
Proof.
  split; [intros k; apply lookup_save|].
  rewrite lookup_save.
  rewrite decide_False by key_neq.
  rewrite decide_False by key_neq.
  rewrite !bool_decide_eq_false_2 by key_neq.
  by rewrite !andb_false_r.
Qed.

(** ** Transient control state *)

(** C10: [load_config_values], [save_config_values] and [set_drive_speed]
    return, and [update_smart_dashboard] returns or raises, with
    [steer_target] and [drive_temp_flipped] as they were, in either
    range-hack mode. *)
Theorem transient_state_frame (hack : bool) (c : call) (w : World) :
  match c with
  | SetSteerAngle _ | ApplyControlValues _ _ => True
  | LoadConfigValues | SaveConfigValues | SetDriveSpeed _ =>
      exists w',
        run hack c w = Returned w' /\
        steer_target (module w') = steer_target (module w) /\
        drive_temp_flipped (module w') = drive_temp_flipped (module w)
  | UpdateSmartDashboard =>
      exists w',
        (run hack c w = Returned w' \/ run hack c w = Raised w') /\
        steer_target (module w') = steer_target (module w) /\
        drive_temp_flipped (module w') = drive_temp_flipped (module w)
  end.
Proof.
  destruct c; simpl; try done.
  - eexists. split; [reflexivity|]. by destruct hack.
  - eexists. split; [reflexivity|]. done.
  - eexists. split; [reflexivity|]. done.
  - destruct (update_smart_dashboard (dashboard w) (module w));
      eexists; (split; [by (left + right)|]); done.
Qed.

(** ** Orientation of the resolved target *)

Lemma cos_full_turns (x : R) (m : Z) : cos (x + IZR m * 2 * PI) = cos x.
Proof.
  destruct (Z_le_gt_dec 0 m) as [Hm|Hm].
  - rewrite <- (Z2Nat.id m Hm), <- INR_IZR_INZ.
    replace (x + INR (Z.to_nat m) * 2 * PI) with (x + 2 * INR (Z.to_nat m) * PI) by lra.
    apply cos_period.
  - assert (Hn : (0 <= - m)%Z) by lia.
    rewrite <- (cos_period (x + IZR m * 2 * PI) (Z.to_nat (- m))).
    rewrite INR_IZR_INZ, (Z2Nat.id _ Hn), opp_IZR. f_equal. lra.
Qed.

Lemma sin_full_turns (x : R) (m : Z) : sin (x + IZR m * 2 * PI) = sin x.
Proof.
  destruct (Z_le_gt_dec 0 m) as [Hm|Hm].
  - rewrite <- (Z2Nat.id m Hm), <- INR_IZR_INZ.
    replace (x + INR (Z.to_nat m) * 2 * PI) with (x + 2 * INR (Z.to_nat m) * PI) by lra.
    apply sin_period.
  - assert (Hn : (0 <= - m)%Z) by lia.
    rewrite <- (sin_period (x + IZR m * 2 * PI) (Z.to_nat (- m))).
    rewrite INR_IZR_INZ, (Z2Nat.id _ Hn), opp_IZR. f_equal. lra.
Qed.

(** Half turns change the sign of the direction vector once each. *)
Lemma cos_half_turns (x : R) (k : Z) :
  cos (x + IZR k * PI) = sign_of (Z.odd k) * cos x.
Proof.
  rewrite (Z.div2_odd k) at 1.
  rewrite plus_IZR, mult_IZR.
  replace (x + (2 * IZR (Z.div2 k) + IZR (Z.b2z (Z.odd k))) * PI)
    with (x + IZR (Z.b2z (Z.odd k)) * PI + IZR (Z.div2 k) * 2 * PI) by lra.
  rewrite cos_full_turns.
  destruct (Z.odd k); simpl; unfold sign_of.
  - replace (x + 1 * PI) with (x + PI) by lra. rewrite neg_cos. lra.
  - replace (x + 0 * PI) with x by lra. lra.
Qed.

Lemma sin_half_turns (x : R) (k : Z) :
  sin (x + IZR k * PI) = sign_of (Z.odd k) * sin x.
Proof.
  rewrite (Z.div2_odd k) at 1.
  rewrite plus_IZR, mult_IZR.
  replace (x + (2 * IZR (Z.div2 k) + IZR (Z.b2z (Z.odd k))) * PI)
    with (x + IZR (Z.b2z (Z.odd k)) * PI + IZR (Z.div2 k) * 2 * PI) by lra.
  rewrite sin_full_turns.
  destruct (Z.odd k); simpl; unfold sign_of.
  - replace (x + 1 * PI) with (x + PI) by lra. rewrite neg_sin. lra.
  - replace (x + 0 * PI) with x by lra. lra.
Qed.

(** Unwrapping and flipping move the target by a whole number of half
    turns, an odd number exactly when the drive is reversed. *)
Lemma resolution_half_turns (cur adj : R) :
  exists k : Z,
    (shortest_path cur (unwrap cur adj)).1 = adj + IZR k * PI /\
    Z.odd k = (shortest_path cur (unwrap cur adj)).2.
Proof.
  unfold shortest_path, unwrap.
  repeat destruct Rgt_dec; simpl;
    first [ exists 0%Z; split; [lra|reflexivity]
          | exists 1%Z; split; [lra|reflexivity]
          | exists (-1)%Z; split; [lra|reflexivity]
          | exists 2%Z; split; [lra|reflexivity]
          | exists (-2)%Z; split; [lra|reflexivity]
          | exists 3%Z; split; [lra|reflexivity]
          | exists (-3)%Z; split; [lra|reflexivity] ].
Qed.

(** The same for a whole call: the stored target is the commanded angle
    plus [k] half turns, and the flag is the parity of [k]. *)
Lemma set_steer_angle_half_turns (self : SwerveModule) (angle_radians : R) :
  steer_range self <> 0%Z ->
  exists self' (k : Z),
    set_steer_angle self angle_radians = Some self' /\
    steer_target self' = angle_radians + IZR k * PI /\
    Z.odd k = drive_temp_flipped self'.
Proof.
  intros Hr.
  destruct (resolution_half_turns
              (rotations self * 2 * PI)
              (angle_radians + IZR (trunc (rotations self)) * 2 * PI))
    as (k & Hk & Ho).
  eexists _, (k + 2 * trunc (rotations self))%Z.
  split; [by apply set_steer_angle_Some|]. simpl.
  split.
  - rewrite Hk, plus_IZR, mult_IZR. lra.
  - rewrite <- Ho. apply Z.odd_add_mul_2.
Qed.

(** X1: a completed [set_steer_angle] stores the commanded angle moved by a
    whole number [k] of half turns, [drive_temp_flipped] is the parity of
    [k], and so the wheel axis points along the commanded direction, with
    the sense reversed exactly when the flag is set. *)
Theorem set_steer_angle_orientation (self : SwerveModule) (angle_radians : R) :
  steer_range self <> 0%Z ->
  exists self' (k : Z),
    set_steer_angle self angle_radians = Some self' /\
    steer_target self' = angle_radians + IZR k * PI /\
    Z.odd k = drive_temp_flipped self' /\
    cos (steer_target self') = sign_of (drive_temp_flipped self') * cos angle_radians /\
    sin (steer_target self') = sign_of (drive_temp_flipped self') * sin angle_radians.
Proof.
  intros Hr.
  destruct (set_steer_angle_half_turns self angle_radians Hr)
    as (self' & k & Hs & Ht & Ho).
  exists self', k. split_and!; try done.
  - rewrite Ht, <- Ho. apply cos_half_turns.
  - rewrite Ht, <- Ho. apply sin_half_turns.
Qed.

(** X1 on the failing input of C1: the target [π] for the command [-2π] is
    three half turns away, and the drive is reversed. *)
Lemma set_steer_angle_orientation_witness :
  steer_range (nominal 896) <> 0%Z /\
  exists self' (k : Z),
    set_steer_angle (nominal 896) (- (2 * PI)) = Some self' /\
    steer_target self' = - (2 * PI) + IZR k * PI /\
    Z.odd k = drive_temp_flipped self'.
Proof.
  assert (Hr : steer_range (nominal 896) <> 0%Z) by done.
  split; [exact Hr|].
  destruct (set_steer_angle_orientation (nominal 896) (- (2 * PI)) Hr)
    as (self' & k & Hs & Ht & Ho & _).
  by exists self', k.
Defined.

(** X2: [apply_control_values] keeps the commanded wheel velocity: the
    output sent to the drive controller, taken along the stored steering
    target, is the commanded speed (with the permanent [drive_reversed]
    polarity) along the commanded angle.  The flag used is the one this
    very call has just resolved, not the previous one. *)
Theorem apply_control_values_velocity (self : SwerveModule)
    (angle_radians percent_speed : R) :
  steer_range self <> 0%Z ->
  exists self' sent,
    apply_control_values self angle_radians percent_speed = Some self' /\
    last_set (drive_talon self') = Some (PercentOutput, sent) /\
    sent * cos (steer_target self')
      = percent_speed * sign_of (drive_reversed self) * cos angle_radians /\
    sent * sin (steer_target self')
      = percent_speed * sign_of (drive_reversed self) * sin angle_radians.
Proof.
  intros Hr.
  destruct (set_steer_angle_half_turns self angle_radians Hr)
    as (s1 & k & Hs & Ht & Ho).
  assert (Hrev : drive_reversed s1 = drive_reversed self).
  { rewrite (set_steer_angle_Some _ _ Hr) in Hs. by injection Hs as <-. }
  eexists _, _. unfold apply_control_values. rewrite Hs. simpl.
  split; [reflexivity|]. split; [reflexivity|]. simpl.
  rewrite Ht, cos_half_turns, sin_half_turns, Ho.
  unfold drive_output, sign_of. rewrite Hrev.
  destruct (drive_reversed self), (drive_temp_flipped s1); split; lra.
Qed.

(** X2 on the half-turn command from sensor 0: the module keeps its
    orientation and the drive runs backwards. *)
Lemma apply_control_values_velocity_witness :
  steer_range (nominal 0) <> 0%Z /\
  exists self' sent,
    apply_control_values (nominal 0) PI 1 = Some self' /\
    last_set (drive_talon self') = Some (PercentOutput, sent) /\
    sent * cos (steer_target self') = 1 * sign_of (drive_reversed (nominal 0)) * cos PI.
Proof.
  assert (Hr : steer_range (nominal 0) <> 0%Z) by done.
  split; [exact Hr|].
  destruct (apply_control_values_velocity (nominal 0) PI 1 Hr)
    as (self' & sent & Ha & Hl & Hc & _).
  by exists self', sent.
Defined.

(** ** How far the steering moves *)

(** The fractional part of the sensor position in turns, as an angle: what
    remains of the current angle once the whole turns counted by
    [n_rotations] are taken out. *)
Lemma raw_distance_eq (x a : R) :
  a + IZR (trunc x) * 2 * PI - x * 2 * PI = a - (x - IZR (trunc x)) * (2 * PI).
Proof. lra. Qed.

Lemma shortest_path_bound_iff (cur adj : R) :
  Rabs ((shortest_path cur (unwrap cur adj)).1 - cur) <= PI / 2 + tol <->
  Rabs (adj - cur) <= 7 * PI / 2 + tol.
Proof. split; intros H; angle_cases. Qed.

Lemma shortest_path_within_half_turn (cur adj : R) :
  Rabs (adj - cur) < 4 * PI ->
  Rabs ((shortest_path cur (unwrap cur adj)).1 - cur) < PI.
Proof. intros H. angle_cases. Qed.

(** X3: the stored target is within a quarter turn (plus the tolerance) of
    the current angle exactly when the commanded angle is within seven
    quarter turns (plus the tolerance) of the fractional sensor angle. *)
Theorem set_steer_angle_bound_iff (self : SwerveModule) (angle_radians : R) :
  steer_range self <> 0%Z ->
  exists self' cur,
    get_steer_angle self = Some cur /\
    set_steer_angle self angle_radians = Some self' /\
    (Rabs (steer_target self' - cur) <= PI / 2 + tol <->
     Rabs (angle_radians
           - (rotations self - IZR (trunc (rotations self))) * (2 * PI))
       <= 7 * PI / 2 + tol).
Proof.
  intros Hr. eexists _, _.
  split; [by apply get_steer_angle_Some|].
  split; [by apply set_steer_angle_Some|]. simpl.
  rewrite shortest_path_bound_iff, raw_distance_eq. done.
Qed.

Lemma set_steer_angle_bound_iff_witness :
  steer_range (nominal 896) <> 0%Z /\
  exists self' cur,
    get_steer_angle (nominal 896) = Some cur /\
    set_steer_angle (nominal 896) (- (2 * PI)) = Some self' /\
    (Rabs (steer_target self' - cur) <= PI / 2 + tol <->
     Rabs (- (2 * PI)
           - (rotations (nominal 896) - IZR (trunc (rotations (nominal 896))))
             * (2 * PI))
       <= 7 * PI / 2 + tol).
Proof.
  assert (Hr : steer_range (nominal 896) <> 0%Z) by done.
  split; [exact Hr|].
  exact (set_steer_angle_bound_iff (nominal 896) (- (2 * PI)) Hr).
Defined.

(** X4 is [set_steer_angle_bound] above; here at the half-turn command from
    sensor 0. *)
Lemma set_steer_angle_bound_witness :
  steer_range (nominal 0) <> 0%Z /\
  - (3 * PI / 2) <= PI <= 3 * PI / 2 /\
  exists self' cur,
    get_steer_angle (nominal 0) = Some cur /\
    set_steer_angle (nominal 0) PI = Some self' /\
    Rabs (steer_target self' - cur) <= PI / 2 + tol.
Proof.
  assert (Hr : steer_range (nominal 0) <> 0%Z) by done.
  assert (Ha : - (3 * PI / 2) <= PI <= 3 * PI / 2)
    by (pose proof PI_gt_3; lra).
  split; [exact Hr|]. split; [exact Ha|].
  exact (set_steer_angle_bound (nominal 0) PI Hr Ha).
Defined.

(** X5: for every commanded angle of the documented range [[-2π, 2π]] the
    stored target is less than a half turn from the current angle. *)
Theorem set_steer_angle_within_half_turn (self : SwerveModule) (angle_radians : R) :
  steer_range self <> 0%Z ->
  - (2 * PI) <= angle_radians <= 2 * PI ->
  exists self' cur,
    get_steer_angle self = Some cur /\
    set_steer_angle self angle_radians = Some self' /\
    Rabs (steer_target self' - cur) < PI.
Proof.
  intros Hr Ha. eexists _, _.
  split; [by apply get_steer_angle_Some|].
  split; [by apply set_steer_angle_Some|]. simpl.
  apply shortest_path_within_half_turn.
  pose proof (raw_target_distance (rotations self) angle_radians) as Hd.
  assert (Rabs angle_radians <= 2 * PI) by (unfold Rabs; destruct Rcase_abs; lra).
  lra.
Qed.

Lemma set_steer_angle_within_half_turn_witness :
  steer_range (nominal 896) <> 0%Z /\
  - (2 * PI) <= - (2 * PI) <= 2 * PI /\
  exists self' cur,
    get_steer_angle (nominal 896) = Some cur /\
    set_steer_angle (nominal 896) (- (2 * PI)) = Some self' /\
    Rabs (steer_target self' - cur) < PI.
Proof.
  assert (Hr : steer_range (nominal 896) <> 0%Z) by done.
  assert (Ha : - (2 * PI) <= - (2 * PI) <= 2 * PI)
    by (pose proof PI_gt_3; lra).
  split; [exact Hr|]. split; [exact Ha|].
  exact (set_steer_angle_within_half_turn (nominal 896) (- (2 * PI)) Hr Ha).
Defined.

(** ** Repeated commands *)

Lemma zero_range_None (self : SwerveModule) (angle_radians : R) :
  steer_range self = 0%Z ->
  get_steer_angle self = None /\ set_steer_angle self angle_radians = None.
Proof.
  intros H0.
  assert (Hd : forall a, py_div a (steer_range self) = None).
  { intros a. unfold py_div. by destruct Z.eq_dec. }
  unfold set_steer_angle, unwrapped_target, get_steer_angle.
  by rewrite !Hd.
Qed.

(** X7: the resolution has no memory.  While the sensor reading stays the
    same, repeating a command returns the module the first call returned:
    neither the previous target, nor the previous flag, nor the previous
    setpoint enters the computation. *)
Theorem set_steer_angle_repeat (self self' : SwerveModule) (angle_radians : R) :
  set_steer_angle self angle_radians = Some self' ->
  set_steer_angle self' angle_radians = Some self'.
Proof.
  intros Hs.
  destruct (Z.eq_dec (steer_range self) 0%Z) as [H0|Hr].
  - destruct (zero_range_None self angle_radians H0) as [_ Hn]. congruence.
  - rewrite (set_steer_angle_Some _ _ Hr) in Hs. injection Hs as <-.
    by rewrite set_steer_angle_Some.
Qed.

Lemma set_steer_angle_repeat_witness :
  exists self',
    set_steer_angle (nominal 0) PI = Some self' /\
    set_steer_angle self' PI = Some self'.
Proof.
  assert (Hr : steer_range (nominal 0) <> 0%Z) by done.
  eexists. split; [exact (set_steer_angle_Some (nominal 0) PI Hr)|].
  apply (set_steer_angle_repeat (nominal 0)).
  exact (set_steer_angle_Some (nominal 0) PI Hr).
Defined.

(** ** The module at its setpoint *)

(** A whole number of half turns that is less than [c] half turns in
    absolute value. *)
Lemma half_turn_count_lt (j c : Z) :
  Rabs (IZR j * PI) < IZR c * PI -> (- c < j < c)%Z.
Proof.
  intros H. pose proof PI_gt_3.
  assert (Hj : - IZR c < IZR j < IZR c).
  { revert H. unfold Rabs. destruct Rcase_abs; intros; split; nra. }
  rewrite <- opp_IZR in Hj. destruct Hj as [H1 H2].
  apply lt_IZR in H1, H2. lia.
Qed.

Lemma with_sensor_position_rotations (self : SwerveModule) (pos : Z) :
  rotations (with_sensor_position self pos)
    = (IZR pos - steer_offset self) / IZR (steer_range self).
Proof. reflexivity. Qed.

(** The eighth-turn command from sensor 0, with its native setpoint. *)
Lemma eighth_turn_setpoint :
  exists self',
    set_steer_angle (nominal 0) (PI / 4) = Some self' /\
    last_set (steer_talon self') = Some (Position, IZR 128) /\
    steer_target self' = PI / 4 /\ drive_temp_flipped self' = false.
Proof.
  assert (Hr : steer_range (nominal 0) <> 0%Z) by done.
  eexists. split; [by apply set_steer_angle_Some|]. simpl.
  assert (Hq : rotations (nominal 0) = 0).
  { destruct (nominal_fields 0) as (Hp & Ho & Hg).
    unfold rotations. rewrite Hp, Ho, Hg. lra. }
  assert (Ht : trunc 0 = 0%Z) by (apply trunc_nonneg_eq; lra).
  rewrite Hq, Ht.
  replace (0 * 2 * PI) with 0 by lra.
  replace (PI / 4 + 0) with (PI / 4 + 0 * 2 * PI) by lra.
  rewrite eighth_turn_from_zero. simpl. split_and!; try done.
  do 2 f_equal. unfold Preferences.getFloat. rewrite lookup_empty.
  pose proof PI_neq0. field. done.
Qed.

(** X8: once the sensor reads the setpoint that [set_steer_angle] issued,
    [get_steer_angle] returns the stored target scaled by
    [1024 / steer_range]: the target itself for the nominal range of 1024,
    and a different angle for every other range (for a non-zero target). *)
Theorem angle_at_setpoint (self self' : SwerveModule) (angle_radians : R) (pos : Z) :
  set_steer_angle self angle_radians = Some self' ->
  last_set (steer_talon self') = Some (Position, IZR pos) ->
  exists cur,
    get_steer_angle (with_sensor_position self' pos) = Some cur /\
    cur = steer_target self' * (1024 / IZR (steer_range self)) /\
    (steer_range self = 1024%Z -> cur = steer_target self') /\
    (steer_range self <> 1024%Z -> steer_target self' <> 0 ->
       cur <> steer_target self').
Proof.
  intros Hs Hl.
  destruct (Z.eq_dec (steer_range self) 0%Z) as [H0|Hr].
  { destruct (zero_range_None self angle_radians H0) as [_ Hn]. congruence. }
  rewrite (set_steer_angle_Some _ _ Hr) in Hs. injection Hs as <-.
  simpl in Hl. injection Hl as Hl.
  assert (Hr' : IZR (steer_range self) <> 0) by (by apply not_0_IZR).
  pose proof PI_neq0 as Hpi.
  eexists. split.
  { apply get_steer_angle_Some. exact Hr. }
  rewrite with_sensor_position_rotations. simpl.
  rewrite <- Hl.
  set (t := (shortest_path _ _).1).
  assert (Hcur : (t * 512 / PI + steer_offset self - steer_offset self)
                 / IZR (steer_range self) * 2 * PI
                 = t * (1024 / IZR (steer_range self))) by (field; done).
  rewrite Hcur. split; [done|]. split.
  - intros E. rewrite E. lra.
  - intros Hne Ht E.
    assert (H1 : 1024 / IZR (steer_range self) = 1) by nra.
    assert (H2 : IZR (steer_range self) = 1024).
    { apply (Rmult_eq_compat_r (IZR (steer_range self))) in H1.
      unfold Rdiv in H1. rewrite Rmult_assoc, Rinv_l in H1 by done. lra. }
    apply Hne. by apply eq_IZR.
Qed.

(** X8 on the eighth-turn command: setpoint 128, and at sensor 128 the
    angle read is the target. *)
Lemma angle_at_setpoint_witness :
  exists self' cur,
    set_steer_angle (nominal 0) (PI / 4) = Some self' /\
    last_set (steer_talon self') = Some (Position, IZR 128) /\
    get_steer_angle (with_sensor_position self' 128) = Some cur /\
    cur = steer_target self'.
Proof.
  destruct eighth_turn_setpoint as (self' & Hs & Hl & _).
  destruct (angle_at_setpoint (nominal 0) self' (PI / 4) 128 Hs Hl)
    as (cur & Hg & _ & Hn & _).
  exists self', cur. split_and!; try done. by apply Hn.
Defined.

(** X9: a module of nominal range that has reached the setpoint of a
    command within [[-2π, 2π]] is at rest under that command: repeating it
    resolves to the same target and the same drive reversal. *)
Theorem settled_command_stable (self self' : SwerveModule) (angle_radians : R) (pos : Z) :
  steer_range self = 1024%Z ->
  - (2 * PI) <= angle_radians <= 2 * PI ->
  set_steer_angle self angle_radians = Some self' ->
  last_set (steer_talon self') = Some (Position, IZR pos) ->
  exists self'',
    set_steer_angle (with_sensor_position self' pos) angle_radians = Some self'' /\
    steer_target self'' = steer_target self' /\
    drive_temp_flipped self'' = drive_temp_flipped self' /\
    last_set (steer_talon self'') = Some (Position, IZR pos).
Proof.
  intros Hrange Ha Hs Hl.
  assert (Hr : steer_range self <> 0%Z) by (rewrite Hrange; done).
  pose proof PI_gt_3 as Hpi3. pose proof PI_neq0 as Hpi.
  destruct (set_steer_angle_half_turns self angle_radians Hr)
    as (s1 & k1 & Hs1 & Ht1 & Ho1).
  rewrite Hs in Hs1. injection Hs1 as <-.
  assert (Hfields : steer_range self' = steer_range self /\
                    steer_offset self' = steer_offset self).
  { rewrite (set_steer_angle_Some _ _ Hr) in Hs. by injection Hs as <-. }
  destruct Hfields as [Hrg Hoff].
  assert (Hset : steer_target self' * 512 / PI + steer_offset self = IZR pos).
  { rewrite (set_steer_angle_Some _ _ Hr) in Hs. injection Hs as <-.
    simpl in *. by injection Hl. }
  set (m := with_sensor_position self' pos).
  assert (Hrm : steer_range m <> 0%Z) by (simpl; rewrite Hrg, Hrange; done).
  assert (Hq : rotations m * 2 * PI = steer_target self').
  { unfold m. rewrite with_sensor_position_rotations, Hrg, Hoff, Hrange, <- Hset.
    field. done. }
  destruct (set_steer_angle_half_turns m angle_radians Hrm)
    as (s2 & k2 & Hs2 & Ht2 & Ho2).
  pose proof (set_steer_angle_Some m angle_radians Hrm) as Hs2'.
  simpl in Hs2'. rewrite Hs2 in Hs2'. injection Hs2' as Hs2'.
  assert (Ht2' : steer_target s2 =
    (shortest_path (rotations m * 2 * PI)
       (unwrap (rotations m * 2 * PI)
          (angle_radians + IZR (trunc (rotations m)) * 2 * PI))).1)
    by (by rewrite Hs2').
  assert (Hl2 : last_set (steer_talon s2)
                = Some (Position, steer_target s2 * 512 / PI + steer_offset self'))
    by (by rewrite Hs2').
  (* the raw target is a whole number of half turns from the settled angle *)
  pose proof (raw_target_distance (rotations m) angle_radians) as Hd.
  assert (Hraw : angle_radians + IZR (trunc (rotations m)) * 2 * PI
                 - rotations m * 2 * PI
                 = IZR (2 * trunc (rotations m) - k1) * PI).
  { rewrite Hq, Ht1, minus_IZR, mult_IZR. lra. }
  rewrite Hraw in Hd.
  assert (Hlt : Rabs (IZR (2 * trunc (rotations m) - k1) * PI) < IZR 4 * PI).
  { assert (Rabs angle_radians <= 2 * PI)
      by (unfold Rabs; destruct Rcase_abs; lra).
    lra. }
  apply half_turn_count_lt in Hlt.
  assert (Hle : Rabs (IZR (2 * trunc (rotations m) - k1) * PI) <= 3 * PI).
  { assert (H1 : IZR (2 * trunc (rotations m) - k1) <= IZR 3)
      by (apply IZR_le; lia).
    assert (H2 : IZR (-3) <= IZR (2 * trunc (rotations m) - k1))
      by (apply IZR_le; lia).
    unfold Rabs. destruct Rcase_abs; nra. }
  rewrite <- Hraw in Hle.
  assert (Hb : Rabs (steer_target s2 - rotations m * 2 * PI) <= PI / 2 + tol).
  { rewrite Ht2'. apply shortest_path_bound. unfold tol. lra. }
  rewrite Hq, Ht2, Ht1 in Hb.
  assert (Hk : Rabs (IZR (k2 - k1) * PI) < IZR 1 * PI).
  { rewrite minus_IZR.
    replace ((IZR k2 - IZR k1) * PI)
      with (angle_radians + IZR k2 * PI - (angle_radians + IZR k1 * PI)) by lra.
    unfold tol in Hb. lra. }
  apply half_turn_count_lt in Hk.
  assert (k2 = k1) by lia. subst k2.
  exists s2. split; [exact Hs2|].
  assert (Htt : steer_target s2 = steer_target self') by (rewrite Ht2, Ht1; done).
  split; [exact Htt|]. split; [by rewrite <- Ho2, <- Ho1|].
  by rewrite Hl2, Htt, Hoff, Hset.
Qed.

(** X9 on the eighth-turn command, at sensor 128. *)
Lemma settled_command_stable_witness :
  steer_range (nominal 0) = 1024%Z /\
  - (2 * PI) <= PI / 4 <= 2 * PI /\
  exists self' self'',
    set_steer_angle (nominal 0) (PI / 4) = Some self' /\
    set_steer_angle (with_sensor_position self' 128) (PI / 4) = Some self'' /\
    steer_target self'' = steer_target self' /\
    drive_temp_flipped self'' = drive_temp_flipped self'.
Proof.
  assert (Ha : - (2 * PI) <= PI / 4 <= 2 * PI) by (pose proof PI_gt_3; lra).
  split; [reflexivity|]. split; [exact Ha|].
  destruct eighth_turn_setpoint as (self' & Hs & Hl & _).
  destruct (settled_command_stable (nominal 0) self' (PI / 4) 128 eq_refl Ha Hs Hl)
    as (self'' & H1 & H2 & H3 & _).
  by exists self', self''.
Defined.

(** ** More on persistence *)

Lemma lookup_save_other (hack : bool) (preferences : gmap string pref_value)
    (self : SwerveModule) (k : string) :
  (forall suffix, k <> name self +:+ String "-" suffix) ->
  save_config_values hack preferences self !! k = preferences !! k.
Proof.
  intros Hk. rewrite lookup_save.
  rewrite decide_False by apply Hk.
  rewrite decide_False by apply Hk.
  rewrite !bool_decide_eq_false_2 by apply Hk.
  by rewrite !andb_false_r.
Qed.

(** A key of a hyphen-free name determines the name: the first [-] of the
    key is where the suffix starts. *)
Lemma key_name_inj (a b s s' : string) :
  hyphen_free a = true -> hyphen_free b = true ->
  a +:+ String "-" s = b +:+ String "-" s' -> a = b.
Proof.
  revert b. induction a as [|c a IH]; intros [|d b] Ha Hb E; simpl in *.
  - done.
  - injection E as E1 E2. subst d. simpl in Hb. done.
  - injection E as E1 E2. subst c. simpl in Ha. done.
  - injection E as E1 E2. subst d.
    apply andb_prop in Ha as [_ Ha]. apply andb_prop in Hb as [_ Hb].
    f_equal. by apply IH.
Qed.

(** X10: writing back what was just loaded leaves the store as it was,
    provided the store holds the module's offset as a number and its drive
    polarity as a boolean (range-hack mode off). *)
Theorem load_save_store_unchanged (preferences : gmap string pref_value)
    (self : SwerveModule) (x : R) (b : bool) :
  preferences !! (name self +:+ "-offset") = Some (PFloat x) ->
  preferences !! (name self +:+ "-reversed") = Some (PBool b) ->
  save_config_values false preferences (load_config_values false preferences self)
    = preferences.
Proof.
  intros Ho Hb.
  unfold save_config_values, load_config_values,
    Preferences.putFloat, Preferences.putBoolean,
    Preferences.accepts_float, Preferences.accepts_boolean,
    Preferences.getFloat, Preferences.getBoolean. simpl.
  rewrite Ho. rewrite (insert_id preferences _ _ Ho).
  rewrite Hb. by rewrite (insert_id preferences _ _ Hb).
Qed.

Lemma load_save_store_unchanged_witness :
  save_config_values false (save_config_values false ∅ calibrated)
    (load_config_values false (save_config_values false ∅ calibrated) (nominal 0))
  = save_config_values false ∅ calibrated.
Proof.
  apply (load_save_store_unchanged _ (nominal 0) 37 true); reflexivity.
Defined.

(** X11: modules with different names that contain no [-] do not share
    keys: what one module saves does not change what the other loads, in
    either mode. *)
Theorem save_leaves_other_module (hack : bool) (preferences : gmap string pref_value)
    (self other : SwerveModule) :
  hyphen_free (name self) = true ->
  hyphen_free (name other) = true ->
  name self <> name other ->
  load_config_values hack (save_config_values hack preferences self) other
    = load_config_values hack preferences other.
Proof.
  intros Hs Ho Hne.
  assert (Hk : forall suffix,
    save_config_values hack preferences self !! (name other +:+ String "-" suffix)
    = preferences !! (name other +:+ String "-" suffix)).
  { intros suffix. apply lookup_save_other. intros suffix' E.
    apply Hne. symmetry. by apply (key_name_inj _ _ _ _ Ho Hs E). }
  unfold load_config_values, Preferences.getFloat, Preferences.getBoolean.
  by rewrite !Hk.
Qed.

Lemma save_leaves_other_module_witness :
  hyphen_free "fl" = true /\ hyphen_free "fr" = true /\
  load_config_values false (save_config_values false ∅ calibrated)
    (init false ∅ "fr" (hw_at 0) (hw_at 0))
  = load_config_values false ∅ (init false ∅ "fr" (hw_at 0) (hw_at 0)).
Proof.
  split; [reflexivity|]. split; [reflexivity|].
  apply (save_leaves_other_module false ∅ calibrated
           (init false ∅ "fr" (hw_at 0) (hw_at 0)));
    [reflexivity | reflexivity | discriminate].
Defined.

(** Without the condition on names the keys can collide: what the module
    named [fl-steer] saves as its drive polarity is what the module named
    [fl] loads as [steer_reversed]. *)
Remark key_collision :
  steer_reversed
    (load_config_values false
       (save_config_values false ∅
          (mkModule (hw_at 0) (hw_at 0) "fl-steer" 0 0 false 0 0 1024 1024%Z true false))
       (nominal 0)) = true.
Proof. reflexivity. Qed.

(** ** Range-hack mode *)

Lemma trunc_ge_1 (x : R) : 1 <= x -> (1 <= trunc x)%Z.
Proof.
  intros Hx. destruct (trunc_bound x) as [[_ Hb]|[Hn _]]; [|lra].
  assert (H : IZR 0 < IZR (trunc x)) by lra.
  apply lt_IZR in H. lia.
Qed.

Lemma trunc_small (x : R) : -1 < x < 1 -> trunc x = 0%Z.
Proof.
  intros Hx.
  assert (H : IZR (-1) < IZR (trunc x) < IZR 1).
  { destruct (trunc_bound x) as [[Hs Hb]|[Hs Hb]]; lra. }
  destruct H as [H1 H2]. apply lt_IZR in H1, H2. lia.
Qed.

Lemma trunc_nonneg (x : R) : 0 <= x -> 0 <= IZR (trunc x) <= x.
Proof.
  intros Hx. destruct (trunc_bound x) as [[_ Hb]|[Hn _]]; [|lra].
  split; [|lra].
  assert (H : IZR (-1) < IZR (trunc x)) by lra.
  apply lt_IZR in H. apply IZR_le. lia.
Qed.

(** The range that the range-hack branch of [load_config_values] computes
    from the persisted bounds (lines 72-78). *)
Lemma range_hack_range (preferences : gmap string pref_value) (self : SwerveModule) :
  let smin := Preferences.getFloat preferences (name self +:+ "-min") 0 in
  let smax := Preferences.getFloat preferences (name self +:+ "-max") 1024 in
  let margin := trunc (IZR (trunc (smax - smin)) * (1 / 100)) in
  steer_range (load_config_values true preferences self)
    = trunc (smax - IZR margin - (smin + IZR margin)).
Proof. reflexivity. Qed.

(** X12: in range-hack mode the loaded [steer_range] is positive as soon as
    the persisted maximum exceeds the persisted minimum by one count, and
    it is zero when they are less than one count apart. *)
Theorem range_hack_range_sign (preferences : gmap string pref_value)
    (self : SwerveModule) :
  let smin := Preferences.getFloat preferences (name self +:+ "-min") 0 in
  let smax := Preferences.getFloat preferences (name self +:+ "-max") 1024 in
  (1 <= smax - smin ->
     (0 < steer_range (load_config_values true preferences self))%Z) /\
  (-1 < smax - smin < 1 ->
     steer_range (load_config_values true preferences self) = 0%Z).
Proof.
  intros smin smax. rewrite range_hack_range. fold smin smax.
  set (r := smax - smin).
  set (m := trunc (IZR (trunc r) * (1 / 100))).
  replace (smax - IZR m - (smin + IZR m)) with (r - 2 * IZR m)
    by (unfold r; lra).
  split.
  - intros Hr.
    pose proof (trunc_ge_1 r Hr) as HA.
    assert (HA' : 0 <= IZR (trunc r) <= r) by (apply trunc_nonneg; lra).
    assert (Hm : 0 <= IZR m <= IZR (trunc r) * (1 / 100))
      by (apply trunc_nonneg; lra).
    assert (Hx : 1 <= r - 2 * IZR m).
    { destruct (Z_lt_ge_dec (trunc r) 100) as [Hs|Hb].
      - assert (IZR (trunc r) < IZR 100) by (by apply IZR_lt).
        assert (Hm1 : IZR m < IZR 1) by lra.
        apply lt_IZR in Hm1.
        assert (Hm0 : IZR m <= IZR 0) by (apply IZR_le; lia). lra.
      - assert (IZR 100 <= IZR (trunc r)) by (apply IZR_le; lia). lra. }
    pose proof (trunc_ge_1 _ Hx). lia.
  - intros Hr.
    assert (HA : trunc r = 0%Z) by (by apply trunc_small).
    assert (Hm : m = 0%Z).
    { unfold m. rewrite HA. apply trunc_small. lra. }
    rewrite Hm. apply trunc_small. lra.
Qed.

(** X12 with no bounds persisted: the defaults 0 and 1024 give a positive
    range. *)
Lemma range_hack_range_sign_witness :
  1 <= Preferences.getFloat ∅ (name (nominal 0) +:+ "-max") 1024
       - Preferences.getFloat ∅ (name (nominal 0) +:+ "-min") 0 /\
  (0 < steer_range (load_config_values true ∅ (nominal 0)))%Z.
Proof.
  assert (H : 1 <= Preferences.getFloat ∅ (name (nominal 0) +:+ "-max") 1024
                   - Preferences.getFloat ∅ (name (nominal 0) +:+ "-min") 0).
  { unfold Preferences.getFloat. rewrite !lookup_empty. lra. }
  split; [exact H|].
  exact (proj1 (range_hack_range_sign ∅ (nominal 0)) H).
Defined.

(** X13: in range-hack mode, over a store whose entries under the four
    saved keys are absent or of the kind saved there, a save followed by a
    load gives back the saved bounds moved inward by the margin computed
    from them (so unchanged only when that margin is zero), the saved
    offset lowered by the reloaded minimum, and the saved drive polarity. *)
Theorem range_hack_round_trip_drift (preferences : gmap string pref_value)
    (self fresh : SwerveModule) :
  name fresh = name self ->
  Preferences.accepts_float preferences (name self +:+ "-offset") = true ->
  Preferences.accepts_boolean preferences (name self +:+ "-reversed") = true ->
  Preferences.accepts_float preferences (name self +:+ "-min") = true ->
  Preferences.accepts_float preferences (name self +:+ "-max") = true ->
  let reloaded :=
    load_config_values true (save_config_values true preferences self) fresh in
  let margin := trunc (IZR (trunc (steer_max self - steer_min self)) * (1 / 100)) in
  steer_min reloaded = steer_min self + IZR margin /\
  steer_max reloaded = steer_max self - IZR margin /\
  steer_offset reloaded = steer_offset self - steer_min reloaded /\
  drive_reversed reloaded = drive_reversed self.
Proof.
  intros Hn Hao Har Hamin Hamax.
  assert (Hmin : Preferences.getFloat (save_config_values true preferences self)
                   (name fresh +:+ "-min") 0 = steer_min self).
  { rewrite Hn. unfold Preferences.getFloat. rewrite lookup_save.
    rewrite !decide_False by key_neq. rewrite bool_decide_eq_true_2 by done.
    simpl. by rewrite Hamin. }
  assert (Hmax : Preferences.getFloat (save_config_values true preferences self)
                   (name fresh +:+ "-max") 1024 = steer_max self).
  { rewrite Hn. unfold Preferences.getFloat. rewrite lookup_save.
    rewrite !decide_False by key_neq.
    rewrite bool_decide_eq_false_2 by key_neq.
    rewrite bool_decide_eq_true_2 by done.
    simpl. by rewrite Hamax. }
  assert (Hoff : Preferences.getFloat (save_config_values true preferences self)
                   (name fresh +:+ "-offset") 0 = steer_offset self).
  { rewrite Hn. unfold Preferences.getFloat. rewrite lookup_save.
    rewrite decide_True by done. by rewrite Hao. }
  assert (Hrev : Preferences.getBoolean (save_config_values true preferences self)
                   (name fresh +:+ "-reversed") false = drive_reversed self).
  { rewrite Hn. unfold Preferences.getBoolean. rewrite lookup_save.
    rewrite decide_False by key_neq. rewrite decide_True by done.
    by rewrite Har. }
  intros reloaded margin. unfold reloaded, load_config_values.
  rewrite Hmin, Hmax, Hoff, Hrev. done.
Qed.

(** X13 on a module with bounds 0 and 1024, saved to an empty store. *)
Lemma range_hack_round_trip_drift_witness :
  name (nominal 0) = name calibrated /\
  steer_min (load_config_values true (save_config_values true ∅ calibrated) (nominal 0))
    = steer_min calibrated
      + IZR (trunc (IZR (trunc (steer_max calibrated - steer_min calibrated))
                    * (1 / 100))).
Proof.
  split; [reflexivity|].
  apply (range_hack_round_trip_drift ∅ calibrated (nominal 0)); reflexivity.
Defined.

(** X16: loading from a store that holds none of the module's keys
    yields the defaults: offset 0, bounds 0 and 1024, range 1024, nothing
    reversed; in range-hack mode the one-percent margin of 1024 truncates to
    10, giving bounds 10 and 1014, range 1004 and offset -10. *)
Theorem load_missing_keys (hack : bool) (preferences : gmap string pref_value)
    (self : SwerveModule) :
  (forall suffix, preferences !! (name self +:+ String "-" suffix) = None) ->
  let loaded := load_config_values hack preferences self in
  steer_offset loaded = (if hack then -10 else 0) /\
  steer_min loaded = (if hack then 10 else 0) /\
  steer_max loaded = (if hack then 1014 else 1024) /\
  steer_range loaded = (if hack then 1004%Z else 1024%Z) /\
  drive_reversed loaded = false /\
  steer_reversed loaded = false.
Proof.
  intros Hk loaded. unfold loaded, load_config_values,
    Preferences.getFloat, Preferences.getBoolean.
  rewrite !Hk. destruct hack; simpl; [|done].
  assert (H1 : trunc (1024 - 0) = 1024%Z) by (apply trunc_nonneg_eq; lra).
  rewrite H1.
  assert (H2 : trunc (1024 * (1 / 100)) = 10%Z) by (apply trunc_nonneg_eq; lra).
  rewrite H2.
  assert (H3 : trunc (1024 - 10 - (0 + 10)) = 1004%Z)
    by (apply trunc_nonneg_eq; lra).
  rewrite H3. split_and!; try done; lra.
Qed.

Lemma load_missing_keys_witness :
  (forall suffix, (∅ : gmap string pref_value)
                    !! (name (nominal 0) +:+ String "-" suffix) = None) /\
  steer_range (load_config_values true ∅ (nominal 0)) = 1004%Z.
Proof.
  assert (H : forall suffix, (∅ : gmap string pref_value)
                    !! (name (nominal 0) +:+ String "-" suffix) = None)
    by (intros suffix; apply lookup_empty).
  split; [exact H|].
  apply (load_missing_keys true ∅ (nominal 0) H).
Defined.

(** ** Telemetry *)

(** [update_smart_dashboard] never publishes: reading [steer_talon.get()]
    for the first entry raises, and the dashboard is left as it was. *)
Remark update_smart_dashboard_raises (hack : bool) (w : World) :
  update_smart_dashboard (dashboard w) (module w) = None /\
  run hack UpdateSmartDashboard w = Raised w.
Proof. done. Qed.

(** ** The program over time *)

Lemma step_keeps_nominal_range (e : event) (w : World) :
  steer_range (module w) = 1024%Z ->
  steer_range (module (world_of (step false e w))) = 1024%Z /\
  name (module (world_of (step false e w))) = name (module w).
Proof.
  intros Hr.
  destruct e as [c|pos raw err|p]; simpl; [|done..].
  destruct c; simpl; try done.
  - destruct (set_steer_angle (module w) angle_radians) as [s1|] eqn:Hs; [|done].
    assert (Hn : steer_range (module w) <> 0%Z) by (rewrite Hr; done).
    rewrite (set_steer_angle_Some _ _ Hn) in Hs. by injection Hs as <-.
  - unfold apply_control_values.
    destruct (set_steer_angle (module w) angle_radians) as [s1|] eqn:Hs; [|done].
    assert (Hn : steer_range (module w) <> 0%Z) by (rewrite Hr; done).
    rewrite (set_steer_angle_Some _ _ Hn) in Hs. by injection Hs as <-.
Qed.

(** X15: in the program as written (range-hack flag off), after the
    construction of a module, whatever sequence of public calls, sensor
    readings and edits of the preference store follows, and whether it runs
    to its end or is cut short by a call that raises, the module still has
    [steer_range] 1024 and its name. *)
Theorem constructed_module_keeps_range (es : list event)
    (preferences : gmap string pref_value) (dash : gmap string R)
    (n : string) (steer_hw drive_hw : TalonSRX) :
  let final :=
    world_of (run_all _apply_range_hack es
                (mkWorld (init _apply_range_hack preferences n steer_hw drive_hw)
                         preferences dash)) in
  steer_range (module final) = 1024%Z /\ name (module final) = n.
Proof.
  assert (Hgen : forall (l : list event) (w : World),
    steer_range (module w) = 1024%Z ->
    steer_range (module (world_of (run_all false l w))) = 1024%Z /\
    name (module (world_of (run_all false l w))) = name (module w)).
  { induction l as [|e l IH]; intros w Hr; simpl; [done|].
    destruct (step_keeps_nominal_range e w Hr) as [Hr1 Hn1].
    destruct (step false e w) as [w1|w1]; simpl in *; [|done].
    destruct (IH w1 Hr1) as [Hr' Hn']. split; [done|]. by rewrite Hn'. }
  intros final. apply (Hgen es). reflexivity.
Qed.

(** ** Shortest path *)

Lemma resolved_within_quarter (x a : R) :
  - (3 * PI / 2) <= a <= 3 * PI / 2 ->
  Rabs ((shortest_path (x * 2 * PI)
           (unwrap (x * 2 * PI) (a + IZR (trunc x) * 2 * PI))).1 - x * 2 * PI)
    <= PI / 2 + tol.
Proof.
  intros Ha. apply shortest_path_bound.
  pose proof (raw_target_distance x a) as Hd.
  assert (Rabs a <= 3 * PI / 2) by (unfold Rabs; destruct Rcase_abs; lra).
  unfold tol. lra.
Qed.

Lemma half_turn_count_ge (j : Z) : j <> 0%Z -> PI <= Rabs (IZR j * PI).
Proof.
  intros Hj. pose proof PI_gt_3.
  destruct (Z_lt_ge_dec j 0) as [Hn|Hp].
  - assert (IZR j <= IZR (-1)) by (apply IZR_le; lia).
    unfold Rabs. destruct Rcase_abs; nra.
  - assert (IZR 1 <= IZR j) by (apply IZR_le; lia).
    unfold Rabs. destruct Rcase_abs; nra.
Qed.

(** X17: a command that, put in the sensor's turn, is already within a
    quarter turn (plus the tolerance) of the current angle is passed
    through: the stored target is that angle and the drive is not
    reversed. *)
Theorem set_steer_angle_pass_through (self : SwerveModule) (angle_radians : R) :
  steer_range self <> 0%Z ->
  Rabs (angle_radians + IZR (trunc (rotations self)) * 2 * PI
        - rotations self * 2 * PI) <= PI / 2 + tol ->
  exists self',
    set_steer_angle self angle_radians = Some self' /\
    steer_target self' = angle_radians + IZR (trunc (rotations self)) * 2 * PI /\
    drive_temp_flipped self' = false.
Proof.
  intros Hr Hd. eexists. split; [by apply set_steer_angle_Some|]. simpl.
  revert Hd.
  generalize (angle_radians + IZR (trunc (rotations self)) * 2 * PI).
  generalize (rotations self * 2 * PI).
  intros cur adj Hd. split; angle_cases.
Qed.

Lemma set_steer_angle_pass_through_witness :
  steer_range (nominal 0) <> 0%Z /\
  exists self',
    set_steer_angle (nominal 0) (PI / 4) = Some self' /\
    steer_target self'
      = PI / 4 + IZR (trunc (rotations (nominal 0))) * 2 * PI /\
    drive_temp_flipped self' = false.
Proof.
  assert (Hr : steer_range (nominal 0) <> 0%Z) by done.
  split; [exact Hr|].
  apply (set_steer_angle_pass_through (nominal 0) (PI / 4) Hr).
  assert (Hq : rotations (nominal 0) = 0).
  { destruct (nominal_fields 0) as (Hp & Ho & Hg).
    unfold rotations. rewrite Hp, Ho, Hg. lra. }
  assert (Ht : trunc 0 = 0%Z) by (apply trunc_nonneg_eq; lra).
  rewrite Hq, Ht. pose proof PI_gt_3.
  unfold tol, Rabs. destruct Rcase_abs; lra.
Defined.

(** X18: for a commanded angle within three quarter turns the stored
    target is, up to twice the tolerance, the nearest to the current angle
    of all the angles that put the wheel axis along the commanded
    direction (the commanded angle plus any whole number of half turns). *)
Theorem set_steer_angle_nearest (self : SwerveModule) (angle_radians : R) :
  steer_range self <> 0%Z ->
  - (3 * PI / 2) <= angle_radians <= 3 * PI / 2 ->
  exists self' cur,
    get_steer_angle self = Some cur /\
    set_steer_angle self angle_radians = Some self' /\
    forall j : Z,
      Rabs (steer_target self' - cur)
        <= Rabs (angle_radians + IZR j * PI - cur) + 2 * tol.
Proof.
  intros Hr Ha.
  destruct (set_steer_angle_half_turns self angle_radians Hr)
    as (s1 & k & Hs & Ht & _).
  exists s1, (rotations self * 2 * PI).
  split; [by apply get_steer_angle_Some|]. split; [exact Hs|].
  assert (Hb : Rabs (steer_target s1 - rotations self * 2 * PI) <= PI / 2 + tol).
  { rewrite (set_steer_angle_Some _ _ Hr) in Hs. injection Hs as <-. simpl.
    by apply resolved_within_quarter. }
  intros j. destruct (Z.eq_dec j k) as [->|Hjk].
  - rewrite <- Ht. unfold tol. lra.
  - assert (Hj : PI <= Rabs (IZR (j - k) * PI))
      by (apply half_turn_count_ge; lia).
    rewrite minus_IZR in Hj.
    replace ((IZR j - IZR k) * PI)
      with ((angle_radians + IZR j * PI - rotations self * 2 * PI)
            - (steer_target s1 - rotations self * 2 * PI)) in Hj
      by (rewrite Ht; lra).
    pose proof (Rabs_triang
                  (angle_radians + IZR j * PI - rotations self * 2 * PI)
                  (- (steer_target s1 - rotations self * 2 * PI))) as Htri.
    rewrite Rabs_Ropp in Htri. unfold Rminus in Hj. unfold Rminus in Htri.
    unfold Rminus. unfold Rminus in Hb. unfold tol in *. lra.
Qed.

Lemma set_steer_angle_nearest_witness :
  steer_range (nominal 0) <> 0%Z /\
  - (3 * PI / 2) <= PI <= 3 * PI / 2 /\
  exists self' cur,
    get_steer_angle (nominal 0) = Some cur /\
    set_steer_angle (nominal 0) PI = Some self' /\
    forall j : Z,
      Rabs (steer_target self' - cur) <= Rabs (PI + IZR j * PI - cur) + 2 * tol.
Proof.
  assert (Hr : steer_range (nominal 0) <> 0%Z) by done.
  assert (Ha : - (3 * PI / 2) <= PI <= 3 * PI / 2)
    by (pose proof PI_gt_3; lra).
  split; [exact Hr|]. split; [exact Ha|].
  exact (set_steer_angle_nearest (nominal 0) PI Hr Ha).
Defined.
